(** * wikibias: segmentation, sample aggregation and final-content assembly

    A shallow embedding of the algorithmic core of the repository:
    - [utils/wiki_parsing.py]: [ContentProcessor] and [WikipediaProcessor];
    - [semantic.py]: [SemanticAnalyzer.analyze_content];
    - [main.py]: [Investigator.get_experts_needed] and
      [Investigator.create_final_content].
    The Edit Applier of the specification has no code in the repository,
    where the corrections are applied by the language model; module
    [EditApplier] models it from the specification.

    Python [str] values are modelled as [string] (ASCII text: a character
    outside the ASCII range is neither a letter nor white space for
    [lower] and [strip]); Python [dict]s as [gmap]; Python [int]s as [Z]
    where they may be negative ([str.find]) and as [nat] where they only
    count up from zero.  Calls to the OpenAI client are calls to a function
    taken as an argument, whose reply is either an exception or the parsed
    object. *)

From Stdlib Require Import Ascii String ZArith Lia.
From stdpp Require Import gmap strings list.

Local Open Scope string_scope.

(** ** Python string primitives used by the sources *)
Module PyStr.

Definition nl : ascii := "010"%char.
Definition hash : ascii := "#"%char.

(** The literal ['\n\n']. *)
Definition blank : string := String nl (String nl "").

(** [s.startswith(p)] *)
Definition startswith (s p : string) : bool := String.prefix p s.

Fixpoint find_from (sub s : string) (i : Z) : Z :=
  if String.prefix sub s then i
  else match s with
       | EmptyString => (-1)%Z
       | String _ s' => find_from sub s' (i + 1)%Z
       end.

(** [s.find(sub)]: lowest index of an occurrence of [sub], or [-1]. *)
Definition find (s sub : string) : Z := find_from sub s 0%Z.

Definition is_upper (c : ascii) : bool :=
  let n := nat_of_ascii c in ((65 <=? n) && (n <=? 90))%nat.


Definition lower_char (c : ascii) : ascii :=
  if is_upper c then ascii_of_nat (nat_of_ascii c + 32) else c.


(** [s.lower()] *)
Fixpoint lower (s : string) : string :=
  match s with
  | EmptyString => EmptyString
  | String c s' => String (lower_char c) (lower s')
  end.

(** White space for [str.strip()] without argument. *)
Definition is_space (c : ascii) : bool :=
  let n := nat_of_ascii c in
  (((9 <=? n) && (n <=? 13)) || ((28 <=? n) && (n <=? 32)))%nat.

Fixpoint lstrip_char (ch : ascii) (s : string) : string :=
  match s with
  | EmptyString => EmptyString
  | String c s' => if Ascii.eqb c ch then lstrip_char ch s' else s
  end.

Fixpoint lstrip (s : string) : string :=
  match s with
  | EmptyString => EmptyString
  | String c s' => if is_space c then lstrip s' else s
  end.

Fixpoint rstrip (s : string) : string :=
  match s with
  | EmptyString => EmptyString
  | String c s' =>
      match rstrip s' with
      | EmptyString => if is_space c then EmptyString else String c EmptyString
      | r => String c r
      end
  end.

(** [s.strip()] *)
Definition strip (s : string) : string := rstrip (lstrip s).

Definition cons_head (c : ascii) (l : list string) : list string :=
  match l with
  | p :: ps => String c p :: ps
  | [] => [String c EmptyString]
  end.

(** [s.split('\n\n')]: the pieces between the non-overlapping occurrences
    of the separator, found from left to right. *)
Fixpoint split_blank (s : string) : list string :=
  match s with
  | EmptyString => [EmptyString]
  | String c s' =>
      match s' with
      | String c' s'' =>
          if Ascii.eqb c nl && Ascii.eqb c' nl
          then EmptyString :: split_blank s''
          else cons_head c (split_blank s')
      | EmptyString => cons_head c (split_blank s')
      end
  end.

(** [sep.join(l)] *)
Fixpoint join (sep : string) (l : list string) : string :=
  match l with
  | [] => EmptyString
  | [x] => x
  | x :: xs => x ++ sep ++ join sep xs
  end.

End PyStr.

(** ** utils/wiki_parsing.py *)
Module WikiParsing.
Import PyStr.

(** The local variables of [chunk_content]. *)
Record chunk_state := mk_chunk_state {
  sections : gmap string string;
  current_section : string;
  current_content : list string
}.

Definition is_header (paragraph : string) : bool := startswith paragraph "#".

(** [paragraph.lstrip('#').strip()] *)
Definition section_title (paragraph : string) : string :=
  strip (lstrip_char hash paragraph).

(** [if current_content: sections[current_section] = '\n\n'.join(current_content)] *)
Definition save (st : chunk_state) : gmap string string :=
  match current_content st with
  | [] => sections st
  | _ :: _ => <[current_section st := join blank (current_content st)]> (sections st)
  end.

(** One iteration of [for paragraph in paragraphs]. *)
Definition chunk_step (st : chunk_state) (paragraph : string) : chunk_state :=
  if is_header paragraph then
    (* [current_content] is reset where it was not empty: it is [[]] after
       this branch either way *)
    {| sections := save st;
       current_section := section_title paragraph;
       current_content := [] |}
  else
    {| sections := sections st;
       current_section := current_section st;
       current_content := current_content st ++ [paragraph] |}.

Definition chunk_init : chunk_state :=
  {| sections := ∅; current_section := "Introduction"; current_content := [] |}.

Definition chunk_paragraphs (paragraphs : list string) : gmap string string :=
  save (fold_left chunk_step paragraphs chunk_init).

Definition chunk_content (markdown_text : string) : gmap string string :=
  chunk_paragraphs (split_blank markdown_text).

End WikiParsing.

(** ** The OpenAI client, as the sources use it *)
Module OpenAI.

Inductive role := system | user.

Definition message : Type := role * string.

(** What [client.beta.chat.completions.parse(...)] followed by
    [response.choices[0].message.parsed] gives: an exception, or the parsed
    object of the requested [response_format]. *)
Inductive reply (A : Type) : Type :=
| Raised : reply A
| Parsed : A → reply A.

Arguments Raised {A}.
Arguments Parsed {A} _.

End OpenAI.

(** ** semantic.py *)
Module Semantic.
Import PyStr OpenAI.

Record BiasInstance := mk_BiasInstance {
  rationale : string;
  bias_type : string;
  biased_phrase : string;
  affected_stakeholder : string
}.

Record SemanticAnalysis := mk_SemanticAnalysis {
  methodology : string;
  detected_biases : list BiasInstance
}.

Record BiasInstanceWithMetadata := mk_BiasInstanceWithMetadata {
  bias_id : nat;
  bias_instance : BiasInstance
}.

Record BiasPhraseMetadata := mk_BiasPhraseMetadata {
  index : Z;
  occurrence_count : nat;
  bias_phrase : string;
  bias_instances : list nat
}.

(** [self]: the client answers the [n]-th call made through it (counted from
    zero) from the messages it is sent; two calls with the same messages may
    get different replies. *)
Record SemanticAnalyzer := mk_SemanticAnalyzer {
  openai_client : nat → list message → reply SemanticAnalysis;
  system_prompt : string
}.

(** The local variables of [analyze_content]; [found] is the source's list
    [bias_instances]. *)
Record run_state := mk_run_state {
  analyses : list SemanticAnalysis;
  found : list BiasInstanceWithMetadata;
  bias_phrase_heatmap : gmap string BiasPhraseMetadata;
  bias_index : nat
}.

Definition new_bucket (content_index : Z) (bias : BiasInstance) (bias_index : nat)
  : BiasPhraseMetadata :=
  {| occurrence_count := 1;
     index := content_index;
     bias_phrase := biased_phrase bias;
     bias_instances := [bias_index] |}.

Definition bump (b : BiasPhraseMetadata) (bias_index : nat) : BiasPhraseMetadata :=
  {| occurrence_count := occurrence_count b + 1;
     index := index b;
     bias_phrase := bias_phrase b;
     bias_instances := bias_instances b ++ [bias_index] |}.

(** [bias.biased_phrase.lower()], the key used at every access to the
    heatmap. *)
Definition phrase_key (bias : BiasInstance) : string := lower (biased_phrase bias).

(** The [if ... not in bias_phrase_heatmap or ....index != content_index]
    statement of the inner loop. *)
Definition update_heatmap (heatmap : gmap string BiasPhraseMetadata)
    (content_index : Z) (bias : BiasInstance) (bias_index : nat)
  : gmap string BiasPhraseMetadata :=
  let key := phrase_key bias in
  match heatmap !! key with
  | None => <[key := new_bucket content_index bias bias_index]> heatmap
  | Some b =>
      if negb (index b =? content_index)%Z
      then <[key := new_bucket content_index bias bias_index]> heatmap
      else <[key := bump b bias_index]> heatmap
  end.

(** One iteration of [for bias in analysis.detected_biases]. *)
Definition record_bias (content : string) (st : run_state) (bias : BiasInstance)
  : run_state :=
  let content_index := find content (biased_phrase bias) in
  if negb (content_index =? -1)%Z then
    {| analyses := analyses st;
       found := found st ++ [ {| bias_instance := bias; bias_id := bias_index st |} ];
       bias_phrase_heatmap :=
         update_heatmap (bias_phrase_heatmap st) content_index bias (bias_index st);
       bias_index := bias_index st + 1 |}
  else st.

(** [analyses.append(analysis)] leaves the other variables as they are. *)
Definition with_analyses (l : list SemanticAnalysis) (st : run_state) : run_state :=
  {| analyses := l;
     found := found st;
     bias_phrase_heatmap := bias_phrase_heatmap st;
     bias_index := bias_index st |}.

Definition request (self : SemanticAnalyzer) (content : string) : list message :=
  [ (system, system_prompt self); (user, content) ].

Definition run_init : run_state :=
  {| analyses := []; found := []; bias_phrase_heatmap := ∅; bias_index := 0 |}.

(** [for i in range(runs)], over the values [i] still to come.  Nothing
    catches an exception of the client: it ends the loop and the call. *)
Fixpoint run_loop (self : SemanticAnalyzer) (content : string) (range : list nat)
    (st : run_state) : reply run_state :=
  match range with
  | [] => Parsed st
  | i :: range' =>
      match openai_client self i (request self content) with
      | Raised => Raised
      | Parsed analysis =>
          run_loop self content range'
            (fold_left (record_bias content) (detected_biases analysis)
               (with_analyses (analyses st ++ [analysis]) st))
      end
  end.

(** The calls of one [analyze_content] are the calls [0 .. runs-1] of the
    client.  [runs] is a [nat]: a negative [runs] gives Python the empty
    range, as [runs = 0] does. *)
Definition analyze_content (self : SemanticAnalyzer) (content : string) (runs : nat)
  : reply (list BiasInstanceWithMetadata * gmap string BiasPhraseMetadata) :=
  match run_loop self content (seq 0 runs) run_init with
  | Raised => Raised
  | Parsed st => Parsed (found st, bias_phrase_heatmap st)
  end.

End Semantic.

(** ** main.py: the final-content step of the Investigator *)
Module Main.
Import PyStr OpenAI.

Record SuggestedCorrection := mk_SuggestedCorrection {
  sc_rationale : string;
  text_added : string;
  text_removed : string
}.

Record BiasInstance := mk_BiasInstance {
  rationale : string;
  bias_type : string;
  affected_stakeholder : string;
  bias_example : string;
  suggested_correction : SuggestedCorrection
}.

Record PassageAnalysis := mk_PassageAnalysis {
  stakeholders : list string;
  bias_instance : list BiasInstance;
  executive_summary : string
}.

Record FinalContent := mk_FinalContent {
  final_content : string
}.

(** [self]: the client, the system prompt and the chat history collected by
    [get_experts_needed]. *)
Record Investigator := mk_Investigator {
  openai_client : list message → reply FinalContent;
  system_prompt : string;
  chat_history : list string
}.

Definition dquote : string := String "034"%char EmptyString.
Definition margin : string := string_of_list_ascii (repeat " "%char 28).

Definition prompt_line (l : string) : string := margin ++ l ++ String nl EmptyString.

Section Prompt.

(** How Python prints a list of pydantic objects inside an f-string. *)
Variable repr : list BiasInstance → string.

(** The f-string of [create_final_content].  Of its lines without text,
    the two inside the example (lines 168 and 172 of the source) hold the
    margin and the others are empty. *)
Definition final_prompt (passage_analysis : PassageAnalysis) (content : string) : string :=
  String nl EmptyString
  ++ prompt_line "Now that you have decided on the suggested corrections, please apply them to the content. When you apply the corrections be sure to apply them in the following way:"
  ++ String nl EmptyString
  ++ prompt_line "Example:"
  ++ prompt_line ("Original text: " ++ dquote ++ "The conflict began in 1948." ++ dquote)
  ++ prompt_line EmptyString
  ++ prompt_line "SuggestedCorrection:"
  ++ prompt_line ("text_added: " ++ dquote ++ "following the UN partition plan" ++ dquote)
  ++ prompt_line ("text_removed: " ++ dquote ++ "in" ++ dquote)
  ++ prompt_line EmptyString
  ++ prompt_line ("Modified text: " ++ dquote ++ "The conflict began [following the UN partition plan]." ++ dquote)
  ++ String nl EmptyString
  ++ prompt_line "Apply all corrections to the content maintaining proper grammar and flow."
  ++ String nl EmptyString
  ++ prompt_line "Here is a list of the suggested corrections:"
  ++ prompt_line (repr (bias_instance passage_analysis))
  ++ String nl EmptyString
  ++ prompt_line "Here is the content:"
  ++ prompt_line content
  ++ "                        ".

Definition final_messages (self : Investigator) (passage_analysis : PassageAnalysis)
    (content : string) : list message :=
  [ (system, system_prompt self) ]
  ++ ((λ m, (user, m)) <$> chat_history self)
  ++ [ (user, final_prompt passage_analysis content) ].

(** The value returned is [response.choices[0].message.parsed], whatever the
    client produced; the function looks neither at the corrections nor at
    the content itself. *)
Definition create_final_content (self : Investigator)
    (passage_analysis : PassageAnalysis) (content : string) : reply FinalContent :=
  openai_client self (final_messages self passage_analysis content).

End Prompt.

End Main.

(** ** Notions used to state the properties *)
Module Props.
Import PyStr WikiParsing OpenAI Semantic.

(** *** Segmenter *)

(** The assignments [sections[name] = '\n\n'.join(content)] that
    [chunk_content] executes, in order, each with the blocks it joins, when
    the loop is entered with [name] and [content] as current section and
    content. *)
Definition flush (name : string) (content : list string) : list (string * list string) :=
  match content with [] => [] | _ => [(name, content)] end.

Fixpoint writes (name : string) (content : list string) (paragraphs : list string)
  : list (string * list string) :=
  match paragraphs with
  | [] => flush name content
  | p :: ps =>
      if is_header p
      then flush name content ++ writes (section_title p) [] ps
      else writes name (content ++ [p]) ps
  end.

Definition stored (w : string * list string) : string * string := (w.1, join blank w.2).

Definition replay (ws : list (string * list string)) (m : gmap string string)
  : gmap string string :=
  fold_left (λ m w, <[w.1 := join blank w.2]> m) ws m.

Definition non_header_blocks (markdown_text : string) : nat :=
  length (List.filter (λ p, negb (is_header p)) (split_blank markdown_text)).

(** The blocks of a stored body are the pieces between its blank lines. *)
Definition body_blocks (body : string) : nat := length (split_blank body).

Definition emitted_blocks (m : gmap string string) : nat :=
  sum_list_with (λ kv, body_blocks kv.2) (map_to_list m).

(** No occurrence of the separator inside a block. *)
Fixpoint clean (p : string) : bool :=
  match p with
  | EmptyString => true
  | String c p' =>
      match p' with
      | String c' _ => negb (Ascii.eqb c nl && Ascii.eqb c' nl) && clean p'
      | EmptyString => true
      end
  end.

Fixpoint ends_nl (p : string) : bool :=
  match p with
  | EmptyString => false
  | String c EmptyString => Ascii.eqb c nl
  | String _ p' => ends_nl p'
  end.

(** Blocks that [split_blank] gives back from their [join]. *)
Inductive joinable : list string → Prop :=
| joinable_nil : joinable []
| joinable_one p : clean p = true → joinable [p]
| joinable_cons p q l :
    clean p = true → ends_nl p = false → joinable (q :: l) → joinable (p :: q :: l).

(** The claim of block preservation, as the specification words it. *)
Definition blocks_preserved (markdown_text : string) : Prop :=
  emitted_blocks (chunk_content markdown_text) = non_header_blocks markdown_text.


Definition doc_repeated_name : string :=
  "# A" +:+ blank +:+ "x" +:+ blank +:+ "# A" +:+ blank +:+ "y".


(** *** Sample aggregator *)

Definition resolved (content : string) (bias : Semantic.BiasInstance) : bool :=
  negb (find content (biased_phrase bias) =? -1)%Z.

(** The client answers the calls of [range] with [samples], in order. *)
Definition answers (self : SemanticAnalyzer) (content : string)
    (range : list nat) (samples : list SemanticAnalysis) : Prop :=
  Forall2 (λ i a, Semantic.openai_client self i (request self content) = Parsed a)
    range samples.

Definition all_biases (samples : list SemanticAnalysis) : list Semantic.BiasInstance :=
  concat (detected_biases <$> samples).

(** The bucket-matching claim, as the specification words it: the bucket
    found under the key at another offset is still in the heatmap after the
    finding is recorded. *)
Definition existing_bucket_preserved (content : string) (st : run_state)
    (bias : Semantic.BiasInstance) : Prop :=
  ∀ b,
    resolved content bias = true →
    bias_phrase_heatmap st !! phrase_key bias = Some b →
    index b ≠ find content (biased_phrase bias) →
    ∃ k, bias_phrase_heatmap (record_bias content st bias) !! k = Some b.

Definition counts_match (hm : gmap string BiasPhraseMetadata) : Prop :=
  ∀ k b, hm !! k = Some b → occurrence_count b = length (bias_instances b).

Definition holds_id (hm : gmap string BiasPhraseMetadata) (k : string) (id : nat) : Prop :=
  ∃ b, hm !! k = Some b ∧ id ∈ bias_instances b.

(** The partition claim, as the specification words it. *)
Definition ids_partitioned (insts : list BiasInstanceWithMetadata)
    (hm : gmap string BiasPhraseMetadata) : Prop :=
  counts_match hm ∧
  ∀ f, f ∈ insts →
    ∃ k, holds_id hm k (bias_id f) ∧ ∀ k', holds_id hm k' (bias_id f) → k' = k.

(** Findings of equal key resolve to equal offsets. *)
Definition offsets_agree (content : string) (insts : list BiasInstanceWithMetadata) : Prop :=
  ∀ f g, f ∈ insts → g ∈ insts →
    phrase_key (Semantic.bias_instance f) = phrase_key (Semantic.bias_instance g) →
    find content (biased_phrase (Semantic.bias_instance f))
    = find content (biased_phrase (Semantic.bias_instance g)).

(** The first half of the dedup claim, as the specification words it. *)
Definition single_sample_counts_one (self : SemanticAnalyzer) (content : string) : Prop :=
  ∀ insts hm, analyze_content self content 1 = Parsed (insts, hm) →
    ∀ k b, hm !! k = Some b → occurrence_count b = 1.

(** Key and offset of a finding. *)
Definition spot (content : string) (bias : Semantic.BiasInstance) : string * Z :=
  (phrase_key bias, find content (biased_phrase bias)).

(** The failure claim, as the specification words it. *)
Definition survives_failure (self : SemanticAnalyzer) (content : string) (runs : nat) : Prop :=
  ∀ i, i < runs →
    Semantic.openai_client self i (request self content) = Raised →
    ∃ r, analyze_content self content runs = Parsed r.

(** What holds of every bucket [b] stored under [k] while the findings
    [fnd] have been recorded. *)
Definition bucket_ok (content : string) (fnd : list BiasInstanceWithMetadata)
    (k : string) (b : BiasPhraseMetadata) : Prop :=
  occurrence_count b = length (bias_instances b) ∧
  NoDup (bias_instances b) ∧
  bias_instances b ≠ [] ∧
  k = lower (bias_phrase b) ∧
  index b = find content (bias_phrase b) ∧
  ∀ id, id ∈ bias_instances b →
    ∃ f, fnd !! id = Some f ∧
         phrase_key (Semantic.bias_instance f) = k ∧
         find content (biased_phrase (Semantic.bias_instance f)) = index b.

Definition run_inv (content : string) (st : run_state) : Prop :=
  bias_id <$> found st = seq 0 (bias_index st) ∧
  ∀ k b, bias_phrase_heatmap st !! k = Some b → bucket_ok content (found st) k b.

(** The bucket of [n] reports of [bias], numbered from zero. *)
Definition bucket_of (content : string) (bias : Semantic.BiasInstance) (n : nat)
  : BiasPhraseMetadata :=
  {| index := find content (biased_phrase bias);
     occurrence_count := n;
     bias_phrase := biased_phrase bias;
     bias_instances := seq 0 n |}.

(** A finding that quotes [phrase]. *)
Definition quoting (phrase : string) : Semantic.BiasInstance :=
  {| Semantic.rationale := ""; Semantic.bias_type := "";
     biased_phrase := phrase; Semantic.affected_stakeholder := "" |}.

Definition reporting (biases : list Semantic.BiasInstance) : SemanticAnalysis :=
  {| methodology := ""; detected_biases := biases |}.

(** A client that answers call [i] with the [i]-th entry of the script and
    raises where the entry is [None] or missing. *)
Definition scripted (script : list (option (list Semantic.BiasInstance)))
  : SemanticAnalyzer :=
  {| Semantic.openai_client := λ i _,
       match script !! i with
       | Some (Some biases) => Parsed (reporting biases)
       | _ => Raised
       end;
     Semantic.system_prompt := "" |}.

(** One sample that quotes ["The"] and then ["the"] from the document
    ["The the"]. *)
Definition doc_the : string := "The the".
Definition self_the : SemanticAnalyzer := scripted [Some [quoting "The"; quoting "the"]].
Definition st_The : run_state := record_bias doc_the run_init (quoting "The").

(** One sample that quotes the same phrase twice. *)
Definition doc_bad : string := "so bad".
Definition self_twice : SemanticAnalyzer := scripted [Some [quoting "bad"; quoting "bad"]].

(** Three calls, the second of which raises. *)
Definition self_flaky : SemanticAnalyzer :=
  scripted [Some [quoting "bad"]; None; Some [quoting "bad"]].






End Props.

(** ** The Edit Applier *)
Module EditApplier.
Import PyStr.

(** Modelled from the spec: the Edit of section 3, a rationale, the phrase
    to remove and the text to insert.  The Edit Applier of section 4.4 is
    not under src/, where the corrections are handed to the language model
    ([Investigator.create_final_content]). *)
Record Edit := mk_Edit {
  edit_rationale : string;
  phrase_to_remove_within : string;
  text_inserted : string
}.

(** Modelled from the spec: the Offset Resolver of section 4.2, an exact,
    case-sensitive substring search that returns the first matching
    position, or ABSENT ([None]). *)
Definition resolve (document phrase : string) : option nat :=
  let offset := find document phrase in
  if (offset =? -1)%Z then None else Some (Z.to_nat offset).

(** Modelled from the spec: the resolved span of an edit, from its offset
    to the end of the phrase removed, with the text to emit in its place. *)
Record Span := mk_Span {
  span_start : nat;
  span_stop : nat;
  span_text : string
}.

(** Modelled from the spec: the span of one edit, resolved against the
    original document. *)
Definition resolve_edit (document : string) (e : Edit) : option Span :=
  match resolve document (phrase_to_remove_within e) with
  | None => None
  | Some offset =>
      Some {| span_start := offset;
              span_stop := offset + String.length (phrase_to_remove_within e);
              span_text := text_inserted e |}
  end.

(** Modelled from the spec: the first pass of section 4.4, which resolves
    every edit before any is applied and fails when a phrase is ABSENT. *)
Fixpoint resolve_all (document : string) (edits : list Edit) : option (list Span) :=
  match edits with
  | [] => Some []
  | e :: edits' =>
      match resolve_edit document e, resolve_all document edits' with
      | Some s, Some spans => Some (s :: spans)
      | _, _ => None
      end
  end.

(** Modelled from the spec: "sort edits by starting offset ascending", as
    an insertion sort that keeps the order of edits of equal offset. *)
Fixpoint insert_span (s : Span) (spans : list Span) : list Span :=
  match spans with
  | [] => [s]
  | t :: spans' =>
      if (span_start s <=? span_start t)%nat then s :: t :: spans'
      else t :: insert_span s spans'
  end.

Fixpoint sort_spans (spans : list Span) : list Span :=
  match spans with
  | [] => []
  | s :: spans' => insert_span s (sort_spans spans')
  end.

(** Modelled from the spec: the one walk over the document of section 4.4,
    which copies the text between the spans and emits at each span the
    inserted text in place of the span.  [cursor] is the end of the text
    consumed so far; a span that starts before it runs into a span already
    taken, and the walk fails. *)
Fixpoint walk (document : string) (cursor : nat) (spans : list Span) : option string :=
  match spans with
  | [] => Some (substring cursor (String.length document - cursor) document)
  | s :: spans' =>
      if (span_start s <? cursor)%nat then None
      else
        match walk document (span_stop s) spans' with
        | None => None
        | Some out =>
            Some (substring cursor (span_start s - cursor) document
                  +:+ span_text s +:+ out)
        end
  end.

(** Modelled from the spec: the result of [apply], the corrected document,
    or a failure that hands the original document back. *)
Inductive outcome : Type :=
| Applied (corrected : string)
| Rejected (original : string).

(** Modelled from the spec: [apply] of section 4.4, resolution and then
    mutation.  The batch is applied whole or not at all. *)
Definition apply_edits (document : string) (edits : list Edit) : outcome :=
  match resolve_all document edits with
  | None => Rejected document
  | Some spans =>
      match walk document 0 (sort_spans spans) with
      | Some corrected => Applied corrected
      | None => Rejected document
      end
  end.





(** The document and the edit of section 8, and a batch of two edits whose
    phrases ["began in"] and ["in"] intersect in it. *)
Definition doc_conflict : string := "The conflict began in 1948.".

Definition edit_in : Edit :=
  {| edit_rationale := ""; phrase_to_remove_within := "in";
     text_inserted := "[following the UN partition plan]" |}.


End EditApplier.

(** ** Further notions on the segmenter *)
Module SegmenterProps.
Import PyStr WikiParsing.

Definition starts_nl (p : string) : bool :=
  match p with
  | String c _ => Ascii.eqb c nl
  | EmptyString => false
  end.

Fixpoint ends_space (p : string) : bool :=
  match p with
  | EmptyString => false
  | String c EmptyString => is_space c
  | String _ p' => ends_space p'
  end.

Definition starts_space (p : string) : bool :=
  match p with
  | String c _ => is_space c
  | EmptyString => false
  end.

(** A block as a reader expects it: not empty, and no line break at either
    end. *)
Definition tidy (p : string) : Prop :=
  p ≠ EmptyString ∧ starts_nl p = false ∧ Props.ends_nl p = false.

End SegmenterProps.

(** ** utils/wiki_parsing.py: the rest of [ContentProcessor] and
    [WikipediaProcessor] *)
Module WikiProcessing.
Import PyStr WikiParsing OpenAI.

(** [sub in s] *)
Definition contains (s sub : string) : bool := negb (find s sub =? -1)%Z.

(** [s.split(ch)] for a separator of one character. *)
Fixpoint split_on (ch : ascii) (s : string) : list string :=
  match s with
  | EmptyString => [EmptyString]
  | String c s' =>
      if Ascii.eqb c ch then EmptyString :: split_on ch s'
      else cons_head c (split_on ch s')
  end.

(** [\d] on ASCII text. *)
Definition is_digit (c : ascii) : bool :=
  let n := nat_of_ascii c in ((48 <=? n) && (n <=? 57))%nat.

(** The number of characters that [\d+\]] matches at the start of [s]
    when [seen] tells that a digit was already matched. *)
Fixpoint ref_tail (seen : bool) (s : string) : option nat :=
  match s with
  | EmptyString => None
  | String c s' =>
      if is_digit c then S <$> ref_tail true s'
      else if Ascii.eqb c "]" && seen then Some 1
      else None
  end.

(** The number of characters that [\[\d+\]] matches at the start of [s],
    if it matches there. *)
Definition ref_length (s : string) : option nat :=
  match s with
  | String c s' => if Ascii.eqb c "[" then S <$> ref_tail false s' else None
  | EmptyString => None
  end.

(** [re.sub(r'\[\d+\]', '', s)], with [skip] characters of a match still to
    be dropped: the matches are looked for from left to right and do not
    overlap. *)
Fixpoint sub_refs (skip : nat) (s : string) : string :=
  match s with
  | EmptyString => EmptyString
  | String c s' =>
      match skip with
      | S k => sub_refs k s'
      | O =>
          match ref_length (String c s') with
          | Some n => sub_refs (n - 1) s'
          | None => String c (sub_refs 0 s')
          end
      end
  end.

(** [re.sub(r'\n{3,}', '\n\n', s)], with [run] line breaks of the current
    run already copied: of a run of line breaks the first two are copied
    and the others dropped. *)
Fixpoint collapse_from (run : nat) (s : string) : string :=
  match s with
  | EmptyString => EmptyString
  | String c s' =>
      if Ascii.eqb c nl then
        if (run <? 2)%nat then String nl (collapse_from (S run) s')
        else collapse_from run s'
      else String c (collapse_from 0 s')
  end.

Definition remove_references (s : string) : string := sub_refs 0 s.
Definition collapse_newlines (s : string) : string := collapse_from 0 s.

Record BasicInfo := mk_BasicInfo {
  title : string;
  summary : string;
  url : string;
  page_id : Z;
  text : string
}.

Record Metadata := mk_Metadata { language : string }.

Record Links := mk_Links {
  categories : list string;
  internal_links : list string;
  languages : list string
}.

Record WikipediaContent := mk_WikipediaContent {
  basic_info : BasicInfo;
  metadata : Metadata;
  links : Links
}.

(** The fields of [urlparse(url)] that the code reads. *)
Record ParseResult := mk_ParseResult {
  scheme : string;
  netloc : string;
  path : string
}.

(** What the code reads of the page object of [wikipediaapi]. *)
Record WikipediaPage := mk_WikipediaPage {
  page_exists : bool;
  page_title : string;
  page_summary : string;
  pageid : Z;
  page_text : string;
  page_language : string;
  page_categories : list string;
  page_links : list string;
  page_langlinks : list string
}.

Section Processor.

(** [urllib.parse.urlparse], which may raise [ValueError]. *)
Variable urlparse : string → reply ParseResult.

(** [self.wiki.page(title)] and the reading of its attributes, which may
    raise. *)
Variable wiki_page : string → reply WikipediaPage.

(** [markdownify] with the options of [convert_to_markdown]. *)
Variable md : string → string.

(** [Raised] is the [ValueError] of the function or of [urlparse]. *)
Definition extract_page_title_from_url (url : string) : reply string :=
  match urlparse url with
  | Raised => Raised
  | Parsed parsed_url =>
      if negb (contains (netloc parsed_url) "wikipedia.org") then Raised
      else
        let path_parts := split_on "/" (path parsed_url) in
        if (length path_parts <? 3)%nat
           || negb (String.eqb (nth 1 path_parts EmptyString) "wiki")
        then Raised
        else Parsed (nth 2 path_parts EmptyString)
  end.

(** [except Exception: return False] *)
Definition validate_url (url : string) : bool :=
  match urlparse url with
  | Raised => false
  | Parsed parsed_url =>
      (String.eqb (scheme parsed_url) "http" || String.eqb (scheme parsed_url) "https")
      && contains (netloc parsed_url) "wikipedia.org"
      && contains (path parsed_url) "/wiki/"
  end.

(** Every exception inside the [try] is raised again as [Exception]. *)
Definition fetch_content (url : string) : reply (option WikipediaContent) :=
  match extract_page_title_from_url url with
  | Raised => Raised
  | Parsed page_title =>
      match wiki_page page_title with
      | Raised => Raised
      | Parsed page =>
          if negb (page_exists page) then Parsed None
          else Parsed (Some
            {| basic_info :=
                 {| title := WikiProcessing.page_title page;
                    summary := page_summary page;
                    url := url;
                    page_id := pageid page;
                    text := page_text page |};
               metadata := {| language := page_language page |};
               links :=
                 {| categories := page_categories page;
                    internal_links := take 10 (page_links page);
                    languages := page_langlinks page |} |})
      end
  end.

Definition convert_to_markdown (content : WikipediaContent) : string :=
  let markdown_text := md (text (basic_info content)) in
  let markdown_text := remove_references markdown_text in
  let markdown_text := collapse_newlines markdown_text in
  strip markdown_text.

(** The [print] calls are left out. *)
Definition get_and_process_content (url : string) : reply (option (gmap string string)) :=
  if validate_url url then
    match fetch_content url with
    | Raised => Raised
    | Parsed (Some content) => Parsed (Some (chunk_content (convert_to_markdown content)))
    | Parsed None => Parsed None
    end
  else Parsed None.

End Processor.

(** No three line breaks in a row. *)
Fixpoint no_triple (s : string) : bool :=
  match s with
  | EmptyString => true
  | String c1 s1 =>
      match s1 with
      | String c2 (String c3 _) =>
          negb (Ascii.eqb c1 nl && Ascii.eqb c2 nl && Ascii.eqb c3 nl)
      | _ => true
      end && no_triple s1
  end.

(** [s] without its line breaks. *)
Fixpoint without_nl (s : string) : string :=
  match s with
  | EmptyString => EmptyString
  | String c s' => if Ascii.eqb c nl then without_nl s' else String c (without_nl s')
  end.

(** [k] line breaks. *)
Fixpoint nls (k : nat) : string :=
  match k with
  | O => EmptyString
  | S k' => String nl (nls k')
  end.

Fixpoint has_char (ch : ascii) (s : string) : bool :=
  match s with
  | EmptyString => false
  | String c s' => Ascii.eqb c ch || has_char ch s'
  end.

Fixpoint all_digits (s : string) : bool :=
  match s with
  | EmptyString => true
  | String c s' => is_digit c && all_digits s'
  end.

(** A client of the URL functions for the examples: the URL is taken as
    [scheme|netloc|path]. *)
Definition toy_urlparse (url : string) : reply ParseResult :=
  match split_on "|" url with
  | [sch; loc; pth] => Parsed {| scheme := sch; netloc := loc; path := pth |}
  | _ => Raised
  end.

(** A page for the examples. *)
Definition sample_page : WikipediaPage :=
  {| page_exists := true; page_title := "Rome"; page_summary := ""; pageid := 1;
     page_text := "# Rome" +:+ blank +:+ String nl ("Rome fell[3]." +:+ String nl EmptyString);
     page_language := "en"; page_categories := [];
     page_links := replicate 12 "x"; page_langlinks := [] |}.

Definition toy_wiki (title : string) : reply WikipediaPage :=
  if String.eqb title "Rome" then Parsed sample_page else Raised.

End WikiProcessing.

(** ** Further notions on the aggregator *)
Module AggregatorProps.
Import PyStr OpenAI Semantic Props.

(** [sub] stands in [s] at the index [i]. *)
Definition occurs_at (s sub : string) (i : Z) : Prop :=
  ∃ a b, s = a +:+ sub +:+ b ∧ i = Z.of_nat (String.length a).

Definition first_at (s sub : string) (i : Z) : Prop :=
  occurs_at s sub i ∧ ∀ j, occurs_at s sub j → (i ≤ j)%Z.

(** The findings returned that have the key [k], in order. *)
Definition with_key (k : string) (insts : list BiasInstanceWithMetadata)
  : list BiasInstanceWithMetadata :=
  List.filter (λ f, String.eqb (phrase_key (Semantic.bias_instance f)) k) insts.

(** The sum of the counts of all buckets. *)
Definition total_count (hm : gmap string BiasPhraseMetadata) : nat :=
  sum_list_with (λ kb, occurrence_count kb.2) (map_to_list hm).

End AggregatorProps.

(** ** main.py: the choice of the experts *)
Module Experts.
Import PyStr OpenAI.

Record Expertise := mk_Expertise {
  degrees : list string;
  certifications : option (list string);
  primary_fields : list string;
  research_areas : list string;
  methodologies : list string;
  temporal_focus : option (list string);
  geographic_focus : option (list string);
  theoretical_frameworks : option (list string);
  tools : option (list string);
  programming_languages : option (list string);
  languages : option (list string)
}.

Record ExpertProfile := mk_ExpertProfile {
  expert_name : string;
  rationale : string;
  potential_bias : string;
  expertise : Expertise
}.

Record ExpertsNeeded := mk_ExpertsNeeded {
  experts : list ExpertProfile
}.

Definition margin32 : string := string_of_list_ascii (repeat " "%char 32).
Definition fence : string := "```".

(** The f-string [initial_message] of [get_experts_needed]. *)
Definition experts_prompt (topic content : string) : string :=
  String nl EmptyString
  ++ margin32 ++ "Read the following Wikipedia content on " ++ topic
  ++ " and identify a balanced panel of 3 experts to evaluate the content for bias and accuracy. It is important that the panel is able to evaluate all viewpoints on the subject matter."
  ++ String nl (String nl EmptyString)
  ++ margin32 ++ "Wikipedia Content:" ++ String nl EmptyString
  ++ margin32 ++ fence ++ String nl EmptyString
  ++ margin32 ++ content ++ String nl EmptyString
  ++ margin32 ++ fence ++ String nl EmptyString
  ++ Main.margin.

(** [self.chat_history.append(m)] *)
Definition remember (self : Main.Investigator) (m : string) : Main.Investigator :=
  {| Main.openai_client := Main.openai_client self;
     Main.system_prompt := Main.system_prompt self;
     Main.chat_history := Main.chat_history self ++ [m] |}.

(** [get_experts_needed]: the investigator after the call, and what the
    call returns.  The client is the client of [self], asked for an
    [ExpertsNeeded]; its reply carries the text [message.content] and the
    parsed object.  The prompt is appended to the history before the
    client is called, so it stays there when the client raises. *)
Definition get_experts_needed
    (client : list message → reply (string * ExpertsNeeded))
    (self : Main.Investigator) (topic content : string)
  : Main.Investigator * reply ExpertsNeeded :=
  let initial_message := experts_prompt topic content in
  let self1 := remember self initial_message in
  match client [ (system, Main.system_prompt self1); (user, initial_message) ] with
  | Raised => (self1, Raised)
  | Parsed (message_content, parsed) => (remember self1 message_content, Parsed parsed)
  end.

(** Calls of [get_experts_needed] one after the other, by a caller that
    goes on after an exception. *)
Fixpoint ask_all (client : list message → reply (string * ExpertsNeeded))
    (self : Main.Investigator) (asks : list (string * string))
  : Main.Investigator * list (reply ExpertsNeeded) :=
  match asks with
  | [] => (self, [])
  | (topic, content) :: asks' =>
      let '(self1, r) := get_experts_needed client self topic content in
      let '(self2, rs) := ask_all client self1 asks' in
      (self2, r :: rs)
  end.

Definition answered {A} (r : reply A) : bool :=
  match r with Parsed _ => true | Raised => false end.

(** A client for the examples: it raises when the topic of the prompt is
    ["x"], and else names no expert. *)
Definition toy_experts_client (messages : list message) : reply (string * ExpertsNeeded) :=
  match messages with
  | [_; (_, prompt)] =>
      if String.eqb prompt (experts_prompt "x" "doc") then Raised
      else Parsed ("{}", {| experts := [] |})
  | _ => Raised
  end.

Definition toy_investigator : Main.Investigator :=
  {| Main.openai_client := λ _, Raised; Main.system_prompt := "sys"; Main.chat_history := [] |}.

End Experts.

Import PyStr WikiParsing OpenAI Semantic Props.
Import EditApplier.
Import SegmenterProps.
Import WikiProcessing.
Import AggregatorProps.
Import Experts.

(** * Strings: splitting and joining on blank lines *)
Section SplitJoin.

Lemma string_ind2 (P : string → Prop) :
  P EmptyString →
  (∀ c, P (String c EmptyString)) →
  (∀ c c' s, P s → P (String c' s) → P (String c (String c' s))) →
  ∀ s, P s.
Proof.
  intros H0 H1 H2 s.
  enough (P s ∧ ∀ c, P (String c s)) by tauto.
  induction s as [|c' s [IHa IHb]]; split; auto.
Qed.

Lemma split_blank_cons2 c c' s :
  split_blank (String c (String c' s)) =
  if Ascii.eqb c nl && Ascii.eqb c' nl
  then EmptyString :: split_blank s
  else cons_head c (split_blank (String c' s)).
Proof. reflexivity. Qed.

Lemma clean_cons2 c c' s :
  clean (String c (String c' s)) =
  negb (Ascii.eqb c nl && Ascii.eqb c' nl) && clean (String c' s).
Proof. reflexivity. Qed.

Lemma ends_nl_cons2 c c' s : ends_nl (String c (String c' s)) = ends_nl (String c' s).
Proof. reflexivity. Qed.

Lemma split_blank_clean p : clean p = true → split_blank p = [p].
Proof.
  induction p as [| c | c c' s _ IH] using string_ind2; intros Hc; try reflexivity.
  rewrite clean_cons2 in Hc. apply andb_prop in Hc as [Hn Hc].
  rewrite split_blank_cons2. apply negb_true_iff in Hn. rewrite Hn.
  rewrite (IH Hc). reflexivity.
Qed.

Lemma split_blank_app p r :
  clean p = true → ends_nl p = false →
  split_blank (p +:+ blank +:+ r) = p :: split_blank r.
Proof.
  induction p as [| c | c c' s _ IH] using string_ind2; intros Hc He.
  - reflexivity.
  - cbn in He.
    change (String c EmptyString +:+ blank +:+ r) with (String c (String nl (String nl r))).
    rewrite split_blank_cons2, He. reflexivity.
  - rewrite clean_cons2 in Hc. apply andb_prop in Hc as [Hn Hc].
    rewrite ends_nl_cons2 in He. apply negb_true_iff in Hn.
    specialize (IH Hc He).
    change (String c' s +:+ blank +:+ r) with (String c' (s +:+ blank +:+ r)) in IH.
    change (String c (String c' s) +:+ blank +:+ r)
      with (String c (String c' (s +:+ blank +:+ r))).
    rewrite split_blank_cons2, Hn, IH. reflexivity.
Qed.

Lemma split_blank_join l : joinable l → l ≠ [] → split_blank (join blank l) = l.
Proof.
  induction 1 as [| p Hp | p q l Hp He Hj IH]; intros Hne.
  - congruence.
  - apply split_blank_clean, Hp.
  - change (join blank (p :: q :: l)) with (p +:+ blank +:+ join blank (q :: l)).
    rewrite split_blank_app by assumption. f_equal. apply IH. discriminate.
Qed.

Lemma join_cons2 p q (l : list string) :
  join blank (p :: q :: l) = p +:+ blank +:+ join blank (q :: l).
Proof. reflexivity. Qed.

Lemma cons_head_spec c c' s l :
  Ascii.eqb c nl && Ascii.eqb c' nl = false →
  joinable l → join blank l = String c' s →
  joinable (cons_head c l) ∧ join blank (cons_head c l) = String c (String c' s).
Proof.
  intros Hn Hj He.
  destruct Hj as [| p Hp | p q l Hp Hq Hj]; [discriminate | |].
  - cbn in He. subst p. split; [| reflexivity].
    constructor. by rewrite clean_cons2, Hn.
  - rewrite join_cons2 in He. cbn [cons_head]. rewrite join_cons2.
    split;
      [| change (String c p +:+ blank +:+ join blank (q :: l))
           with (String c (p +:+ blank +:+ join blank (q :: l)));
         by rewrite He].
    destruct p as [|c2 p].
    + injection He as <- _. rewrite andb_true_r in Hn.
      constructor; [reflexivity | exact Hn | exact Hj].
    + injection He as -> _.
      constructor; [by rewrite clean_cons2, Hn | by rewrite ends_nl_cons2 | exact Hj].
Qed.

Lemma split_blank_nonempty s : split_blank s ≠ [].
Proof.
  destruct s as [|c [|c' s]]; [done | done |].
  rewrite split_blank_cons2.
  destruct (Ascii.eqb c nl && Ascii.eqb c' nl); [done |].
  by destruct (split_blank (String c' s)).
Qed.

Lemma split_blank_spec s :
  joinable (split_blank s) ∧ join blank (split_blank s) = s.
Proof.
  induction s as [| c | c c' s [IHj IHe] [IHj' IHe']] using string_ind2.
  - split; [by constructor | reflexivity].
  - split; [by constructor | reflexivity].
  - rewrite split_blank_cons2.
    destruct (Ascii.eqb c nl && Ascii.eqb c' nl) eqn:Hn.
    + apply andb_prop in Hn as [Ec Ec'].
      apply Ascii.eqb_eq in Ec, Ec'. subst c c'.
      destruct (split_blank s) as [|q l] eqn:Es; [by apply split_blank_nonempty in Es |].
      split; [by constructor |].
      rewrite join_cons2, IHe. reflexivity.
    + by apply cons_head_spec.
Qed.

Lemma joinable_tail p l : joinable (p :: l) → joinable l.
Proof. inversion 1; subst; [constructor | assumption]. Qed.

Lemma joinable_app_r (l1 l2 : list string) : joinable (l1 ++ l2) → joinable l2.
Proof. induction l1 as [|p l1 IH]; cbn; [done | intros H; eauto using joinable_tail]. Qed.

Lemma joinable_app_l (l1 l2 : list string) : joinable (l1 ++ l2) → joinable l1.
Proof.
  induction l1 as [|p l1 IH]; cbn; intros H; [constructor |].
  destruct l1 as [|q l1].
  - inversion H; subst; by constructor.
  - cbn in *. inversion H; subst. constructor; auto.
Qed.

End SplitJoin.

(** * The segmenter *)
Section Segmenter.

Lemma writes_header name content p ps :
  is_header p = true →
  writes name content (p :: ps)
  = (flush name content ++ writes (section_title p) [] ps)%list.
Proof. intros H. cbn. by rewrite H. Qed.

Lemma writes_block name content p ps :
  is_header p = false →
  writes name content (p :: ps) = writes name (content ++ [p])%list ps.
Proof. intros H. cbn. by rewrite H. Qed.

Lemma replay_app ws1 ws2 m : replay (ws1 ++ ws2)%list m = replay ws2 (replay ws1 m).
Proof. apply fold_left_app. Qed.

Lemma save_flush st :
  save st = replay (flush (current_section st) (current_content st)) (sections st).
Proof. unfold save, flush. by destruct (current_content st). Qed.

(** The loop of [chunk_content] performs exactly the assignments of
    [writes]. *)
Lemma chunk_loop_writes ps st :
  save (fold_left chunk_step ps st) =
  replay (writes (current_section st) (current_content st) ps) (sections st).
Proof.
  revert st. induction ps as [|p ps IH]; intros st.
  - apply save_flush.
  - cbn [fold_left]. rewrite IH. unfold chunk_step.
    destruct (is_header p) eqn:Hp; cbn [sections current_section current_content].
    + rewrite writes_header, replay_app, save_flush by done. reflexivity.
    + by rewrite writes_block.
Qed.

Lemma chunk_content_writes text :
  chunk_content text = replay (writes "Introduction" [] (split_blank text)) ∅.
Proof. apply chunk_loop_writes. Qed.

Lemma replay_snoc ws w m : replay (ws ++ [w])%list m = <[w.1 := join blank w.2]> (replay ws m).
Proof. by rewrite replay_app. Qed.

Lemma replay_list_to_map ws :
  replay ws ∅ = list_to_map (reverse (stored <$> ws)).
Proof.
  induction ws as [|w ws IH] using rev_ind; [done |].
  rewrite replay_snoc, fmap_app, reverse_app, IH. reflexivity.
Qed.


Lemma writes_blocks name content ps :
  sum_list_with (λ w, length w.2) (writes name content ps)
  = length content + length (List.filter (λ p, negb (is_header p)) ps).
Proof.
  revert name content. induction ps as [|p ps IH]; intros name content.
  - destruct content; cbn; lia.
  - destruct (is_header p) eqn:Hp.
    + rewrite writes_header, sum_list_with_app, IH by done.
      cbn [List.filter]. rewrite Hp. destruct content; cbn; lia.
    + rewrite writes_block, IH, length_app by done.
      cbn [List.filter]. rewrite Hp. cbn. lia.
Qed.

Lemma writes_joinable name content ps :
  joinable (content ++ ps)%list →
  Forall (λ w, joinable w.2 ∧ w.2 ≠ []) (writes name content ps).
Proof.
  revert name content. induction ps as [|p ps IH]; intros name content Hj.
  - rewrite app_nil_r in Hj. destruct content; cbn; repeat constructor; done.
  - destruct (is_header p) eqn:Hp.
    + rewrite writes_header by done. apply Forall_app. split.
      * apply joinable_app_l in Hj. destruct content; cbn; repeat constructor; done.
      * apply IH. cbn. by apply joinable_app_r, joinable_tail in Hj.
    + rewrite writes_block by done. apply IH. by rewrite <- app_assoc.
Qed.

Lemma stored_blocks ws :
  Forall (λ w, joinable w.2 ∧ w.2 ≠ []) ws →
  sum_list_with (λ kv, body_blocks kv.2) (stored <$> ws)
  = sum_list_with (λ w, length w.2) ws.
Proof.
  induction 1 as [|w ws [Hj Hne] _ IH]; [done |].
  cbn. rewrite IH. unfold body_blocks. by rewrite split_blank_join.
Qed.

(** C5: segmenting the empty document gives one section, ["Introduction"]
    with the empty body, and not the empty mapping: [''.split('\n\n')] is
    [['']], a list that is not empty. *)
Theorem chunk_content_empty_document :
  split_blank "" = [""] ∧
  chunk_content "" = {[ "Introduction" := "" ]} ∧
  chunk_content "" ≠ ∅.
Proof.
  split; [reflexivity |]. split; [vm_compute; reflexivity |].
  intros E. apply (f_equal (λ m, m !! "Introduction")) in E.
  vm_compute in E. discriminate.
Qed.

(** C6, as worded, fails: of the two body blocks of [doc_repeated_name] one
    is emitted, the other is overwritten. *)
Lemma blocks_preserved_fails : ¬ blocks_preserved doc_repeated_name.
Proof. unfold blocks_preserved. vm_compute. discriminate. Qed.

Lemma joined_blocks (ws : list (string * list string)) :
  Forall (λ w, joinable w.2 ∧ w.2 ≠ []) ws →
  sum_list_with (λ w, body_blocks (join blank w.2)) ws
  = sum_list_with (λ w, length w.2) ws.
Proof.
  induction 1 as [|w ws [Hj Hne] _ IH]; [done |].
  cbn. rewrite IH. unfold body_blocks. by rewrite split_blank_join.
Qed.

Lemma sum_insert_None {A} (f : string * A → nat) k v (m : gmap string A) :
  m !! k = None →
  sum_list_with f (map_to_list (<[k:=v]> m)) = f (k, v) + sum_list_with f (map_to_list m).
Proof. intros H. by rewrite map_to_list_insert. Qed.

Lemma sum_insert_Some {A} (f : string * A → nat) k v v0 (m : gmap string A) :
  m !! k = Some v0 →
  sum_list_with f (map_to_list (<[k:=v]> m)) + f (k, v0)
  = f (k, v) + sum_list_with f (map_to_list m).
Proof.
  intros H. rewrite <- insert_delete_eq, map_to_list_insert by apply lookup_delete_eq.
  rewrite <- (map_to_list_delete m k v0 H). cbn. lia.
Qed.

Lemma replay_lookup_elem ws k : k ∈ ws.*1 → is_Some (replay ws ∅ !! k).
Proof.
  induction ws as [|w ws IH] using rev_ind; [by intros ?%elem_of_nil |].
  rewrite fmap_app, replay_snoc. intros Hk.
  destruct (decide (w.1 = k)) as [<- | Hne]; [by rewrite lookup_insert_eq |].
  rewrite lookup_insert_ne by done. apply IH.
  apply elem_of_app in Hk as [Hk | Hk]; [done |].
  apply list_elem_of_singleton in Hk. congruence.
Qed.

Lemma body_blocks_positive body : (1 ≤ body_blocks body)%nat.
Proof.
  unfold body_blocks. pose proof (split_blank_nonempty body).
  destruct (split_blank body); [done | cbn; lia].
Qed.

(** An assignment to a name that is already there loses the blocks stored
    under the name before. *)
Lemma replay_blocks_strict ws :
  (emitted_blocks (replay ws ∅)
   ≤ sum_list_with (λ w, body_blocks (join blank w.2)) ws)%nat ∧
  (¬ NoDup ws.*1 →
   (emitted_blocks (replay ws ∅)
    < sum_list_with (λ w, body_blocks (join blank w.2)) ws)%nat).
Proof.
  induction ws as [|w ws [IHle IHlt]] using rev_ind.
  - split; [| intros H; destruct H; constructor].
    unfold emitted_blocks. cbn. by rewrite map_to_list_empty.
  - rewrite replay_snoc, sum_list_with_app, fmap_app. unfold emitted_blocks in *.
    cbn [sum_list_with fmap list_fmap]. cbn beta.
    destruct (replay ws ∅ !! w.1) as [v0|] eqn:E.
    + pose proof (sum_insert_Some (λ kv : string * string, body_blocks kv.2)
                    w.1 (join blank w.2) v0 _ E) as Hs.
      pose proof (body_blocks_positive v0). cbv beta in Hs.
      change (body_blocks (w.1, join blank w.2).2) with (body_blocks (join blank w.2)) in Hs.
      change (body_blocks (w.1, v0).2) with (body_blocks v0) in Hs.
      split; [lia | intros _; lia].
    + pose proof (sum_insert_None (λ kv : string * string, body_blocks kv.2)
                    w.1 (join blank w.2) _ E) as Hs.
      cbv beta in Hs.
      change (body_blocks (w.1, join blank w.2).2) with (body_blocks (join blank w.2)) in Hs.
      split; [lia |]. intros Hnd.
      enough (¬ NoDup ws.*1) as Hnd' by (specialize (IHlt Hnd'); lia).
      intros Hws. apply Hnd. apply NoDup_app. split; [done |].
      split; [| apply NoDup_singleton].
      intros k Hk ->%list_elem_of_singleton.
      apply replay_lookup_elem in Hk as [v Hv]. congruence.
Qed.

(** C6, amended: when the assignments to [sections] all go to different
    names, the stored bodies have together as many blocks as the document
    has blocks that are not headers; and when two of them go to the same
    name, the body stored first under the name is overwritten and the
    stored bodies have together fewer blocks than that. *)
Theorem blocks_preserved_distinct_names text :
  let names := (writes "Introduction" [] (split_blank text)).*1 in
  (NoDup names →
   emitted_blocks (chunk_content text) = non_header_blocks text) ∧
  (¬ NoDup names →
   (emitted_blocks (chunk_content text) < non_header_blocks text)%nat).
Proof.
  cbn zeta.
  set (ws := writes "Introduction" [] (split_blank text)).
  assert (sum_list_with (λ w, body_blocks (join blank w.2)) ws = non_header_blocks text)
    as Htotal.
  { rewrite joined_blocks by (apply writes_joinable; cbn; apply split_blank_spec).
    unfold ws, non_header_blocks. by rewrite writes_blocks. }
  split.
  - intros Hnd. unfold emitted_blocks.
    rewrite chunk_content_writes, replay_list_to_map. fold ws.
    rewrite map_to_list_to_map.
    + rewrite sum_list_with_reverse, stored_blocks.
      * unfold ws, non_header_blocks. by rewrite writes_blocks.
      * apply writes_joinable. cbn. apply split_blank_spec.
    + rewrite fmap_reverse, reverse_Permutation.
      by rewrite <- list_fmap_compose.
  - intros Hnd. rewrite chunk_content_writes. fold ws. rewrite <- Htotal.
    by apply replay_blocks_strict.
Qed.

Lemma blocks_preserved_distinct_names_witness :
  emitted_blocks (chunk_content ("a" +:+ blank +:+ "# B" +:+ blank +:+ "c" +:+ blank +:+ "d"))
  = 3 ∧
  (emitted_blocks (chunk_content doc_repeated_name) < non_header_blocks doc_repeated_name)%nat.
Proof.
  split.
  - rewrite (proj1 (blocks_preserved_distinct_names
                      ("a" +:+ blank +:+ "# B" +:+ blank +:+ "c" +:+ blank +:+ "d")));
      [reflexivity |].
    vm_compute. apply NoDup_cons_2; [| apply NoDup_singleton].
    intros H. apply list_elem_of_singleton in H. discriminate H.
  - apply (proj2 (blocks_preserved_distinct_names doc_repeated_name)).
    vm_compute. intros H. apply NoDup_cons_1_1 in H. apply H. by left.
Defined.

Lemma writes_names ps name content k :
  k ∈ (writes name content ps).*1 →
  k = name ∨ ∃ p, p ∈ ps ∧ is_header p = true ∧ k = section_title p.
Proof.
  revert name content. induction ps as [|p ps IH]; intros name content Hk.
  - left. destruct content; cbn in Hk; [by apply elem_of_nil in Hk |].
    by apply list_elem_of_singleton in Hk.
  - destruct (is_header p) eqn:Hp.
    + rewrite writes_header, fmap_app in Hk by done.
      apply elem_of_app in Hk as [Hk | Hk].
      * left. destruct content; cbn in Hk; [by apply elem_of_nil in Hk |].
        by apply list_elem_of_singleton in Hk.
      * right. apply IH in Hk as [-> | (q & Hq & Hh & ->)].
        -- exists p. split; [left | done].
        -- exists q. split; [by right | done].
    + rewrite writes_block in Hk by done.
      apply IH in Hk as [-> | (q & Hq & Hh & ->)]; [by left |].
      right. exists q. split; [by right | done].
Qed.


Lemma writes_run (body rest : list string) name content :
  Forall (λ p, is_header p = false) body →
  writes name content (body ++ rest)%list = writes name (content ++ body)%list rest.
Proof.
  intros Hb. revert content. induction Hb as [|p body Hp _ IH]; intros content.
  - by rewrite app_nil_r.
  - cbn [app]. rewrite writes_block, IH by done. by rewrite <- app_assoc.
Qed.






End Segmenter.

(** * The sample aggregator *)
Section Aggregator.

Variable content : string.

Lemma with_analyses_twice l l' st :
  with_analyses l (with_analyses l' st) = with_analyses l st.
Proof. reflexivity. Qed.

Lemma with_analyses_same st : with_analyses (analyses st) st = st.
Proof. by destruct st. Qed.

Lemma record_bias_with_analyses l st bias :
  record_bias content (with_analyses l st) bias
  = with_analyses l (record_bias content st bias).
Proof. unfold record_bias. by destruct (negb _). Qed.

Lemma fold_record_with_analyses biases l st :
  fold_left (record_bias content) biases (with_analyses l st)
  = with_analyses l (fold_left (record_bias content) biases st).
Proof.
  revert st. induction biases as [|x biases IH]; intros st; [done |].
  cbn [fold_left]. by rewrite record_bias_with_analyses, IH.
Qed.

Lemma all_biases_cons a samples :
  all_biases (a :: samples) = (detected_biases a ++ all_biases samples)%list.
Proof. reflexivity. Qed.

(** The run returns exactly when every call is answered, and then it is the
    fold of [record_bias] over the findings of all samples, in order. *)
Lemma run_loop_parsed self range st st' :
  run_loop self content range st = Parsed st' ↔
  ∃ samples, answers self content range samples ∧
    st' = with_analyses (analyses st ++ samples)%list
            (fold_left (record_bias content) (all_biases samples) st).
Proof.
  revert st. induction range as [|i range IH]; intros st; cbn [run_loop].
  - split.
    + intros [= <-]. exists []. split; [constructor |].
      cbn. by rewrite app_nil_r, with_analyses_same.
    + intros (samples & Ha & ->). inversion Ha; subst.
      cbn. by rewrite app_nil_r, with_analyses_same.
  - destruct (Semantic.openai_client self i (request self content)) as [|a] eqn:Ea.
    + split; [discriminate |].
      intros (samples & Ha & _). inversion Ha; subst. congruence.
    + rewrite IH, fold_record_with_analyses. split.
      * intros (samples & Ha & ->). exists (a :: samples). split; [by constructor |].
        rewrite fold_record_with_analyses, with_analyses_twice, all_biases_cons, fold_left_app.
        cbn. by rewrite <- app_assoc.
      * intros (samples & Ha & ->). inversion Ha as [|? a' ? samples' Hi Ha']; subst.
        assert (a' = a) as -> by congruence.
        exists samples'. split; [done |].
        rewrite fold_record_with_analyses, with_analyses_twice, all_biases_cons, fold_left_app.
        cbn. by rewrite <- app_assoc.
Qed.

Lemma analyze_content_parsed self runs insts hm :
  analyze_content self content runs = Parsed (insts, hm) ↔
  ∃ samples, answers self content (seq 0 runs) samples ∧
    insts = found (fold_left (record_bias content) (all_biases samples) run_init) ∧
    hm = bias_phrase_heatmap (fold_left (record_bias content) (all_biases samples) run_init).
Proof.
  unfold analyze_content.
  destruct (run_loop self content (seq 0 runs) run_init) as [|st] eqn:E.
  - split; [discriminate |].
    intros (samples & Ha & _).
    assert (run_loop self content (seq 0 runs) run_init
            = Parsed (with_analyses (analyses run_init ++ samples)%list
                (fold_left (record_bias content) (all_biases samples) run_init)))
      by (apply run_loop_parsed; eauto).
    congruence.
  - apply run_loop_parsed in E as (samples & Ha & ->). split.
    + intros [= <- <-]. by exists samples.
    + intros (samples' & Ha' & -> & ->).
      assert (samples' = samples) as ->; [| done].
      clear -Ha Ha'. revert samples' Ha'.
      induction Ha as [|i a range samples Hi _ IH]; intros samples' Ha';
        inversion Ha'; subst; [done |].
      f_equal; [congruence | by apply IH].
Qed.

(** ** One recorded finding *)

Lemma record_bias_resolved st bias :
  resolved content bias = true →
  record_bias content st bias =
  {| analyses := analyses st;
     found := found st ++ [ {| bias_instance := bias; bias_id := bias_index st |} ];
     bias_phrase_heatmap :=
       update_heatmap (bias_phrase_heatmap st) (find content (biased_phrase bias))
         bias (bias_index st);
     bias_index := bias_index st + 1 |}.
Proof. unfold resolved, record_bias. by intros ->. Qed.

Lemma record_bias_unresolved st bias :
  resolved content bias = false → record_bias content st bias = st.
Proof. unfold resolved, record_bias. by intros ->. Qed.

Lemma update_heatmap_insert hm ci bias idx :
  ∃ b, update_heatmap hm ci bias idx = <[phrase_key bias := b]> hm ∧
    ((b = new_bucket ci bias idx ∧
      (hm !! phrase_key bias = None ∨
       ∃ b0, hm !! phrase_key bias = Some b0 ∧ index b0 ≠ ci)) ∨
     ∃ b0, hm !! phrase_key bias = Some b0 ∧ index b0 = ci ∧ b = bump b0 idx).
Proof.
  unfold update_heatmap.
  destruct (hm !! phrase_key bias) as [b0|] eqn:E0.
  - destruct (Z.eqb_spec (index b0) ci) as [Hi | Hi]; cbn.
    + exists (bump b0 idx). split; [done |]. right. by exists b0.
    + exists (new_bucket ci bias idx). split; [done |]. left. split; [done |].
      right. by exists b0.
  - exists (new_bucket ci bias idx). split; [done |]. left. split; [done | by left].
Qed.

Lemma bucket_ok_snoc fnd f k b :
  bucket_ok content fnd k b → bucket_ok content (fnd ++ [f]) k b.
Proof.
  intros (Hc & Hn & He & Hk & Hi & Hid). repeat split; try done.
  intros id Hin. destruct (Hid id Hin) as (g & Hg & Hg').
  exists g. split; [by apply lookup_app_l_Some | done].
Qed.

Lemma run_inv_length st : run_inv content st → length (found st) = bias_index st.
Proof.
  intros [Hids _]. apply (f_equal length) in Hids.
  by rewrite length_fmap, length_seq in Hids.
Qed.

Lemma run_inv_id_bound st k b id :
  run_inv content st →
  bias_phrase_heatmap st !! k = Some b → id ∈ bias_instances b → id < bias_index st.
Proof.
  intros Hinv Hb Hin. rewrite <- (run_inv_length st Hinv).
  destruct Hinv as [_ Hok]. destruct (Hok k b Hb) as (_ & _ & _ & _ & _ & Hid).
  destruct (Hid id Hin) as (f & Hf & _). by apply lookup_lt_Some in Hf.
Qed.

Lemma run_inv_init : run_inv content run_init.
Proof. split; [done |]. intros k b H. cbn in H. by apply lookup_empty_Some in H. Qed.

Lemma new_bucket_ok st bias :
  run_inv content st →
  bucket_ok content (found st ++ [ {| bias_instance := bias; bias_id := bias_index st |} ])
    (phrase_key bias)
    (new_bucket (find content (biased_phrase bias)) bias (bias_index st)).
Proof.
  intros Hinv. repeat split; cbn; try done.
  - apply NoDup_singleton.
  - intros id ->%list_elem_of_singleton.
    exists {| bias_instance := bias; bias_id := bias_index st |}. split; [| done].
    rewrite lookup_app_r by (rewrite (run_inv_length st Hinv); lia).
    by rewrite (run_inv_length st Hinv), Nat.sub_diag.
Qed.

Lemma bump_ok st bias b0 :
  run_inv content st →
  bias_phrase_heatmap st !! phrase_key bias = Some b0 →
  index b0 = find content (biased_phrase bias) →
  bucket_ok content (found st ++ [ {| bias_instance := bias; bias_id := bias_index st |} ])
    (phrase_key bias) (bump b0 (bias_index st)).
Proof.
  intros Hinv Hb0 Hi.
  pose proof (run_inv_length st Hinv) as Hlen.
  destruct (proj2 Hinv _ _ Hb0) as (Hc & Hn & He & Hk & Hix & Hid).
  repeat split; cbn.
  - rewrite length_app. cbn. lia.
  - apply NoDup_app. split; [done |]. split; [| apply NoDup_singleton].
    intros id Hin ->%list_elem_of_singleton.
    pose proof (run_inv_id_bound st _ _ _ Hinv Hb0 Hin). lia.
  - by destruct (bias_instances b0).
  - done.
  - done.
  - intros id [Hin | ->%list_elem_of_singleton]%elem_of_app.
    + destruct (Hid id Hin) as (g & Hg & Hg').
      exists g. split; [by apply lookup_app_l_Some | done].
    + exists {| bias_instance := bias; bias_id := bias_index st |}.
      split; [| by rewrite Hi].
      rewrite lookup_app_r by lia. by rewrite Hlen, Nat.sub_diag.
Qed.

Lemma run_inv_step st bias :
  run_inv content st → run_inv content (record_bias content st bias).
Proof.
  intros Hinv. destruct (resolved content bias) eqn:Hr;
    [| by rewrite record_bias_unresolved].
  rewrite record_bias_resolved by done. split; cbn.
  - rewrite fmap_app, (proj1 Hinv), Nat.add_1_r, seq_S. reflexivity.
  - intros k b Hkb.
    destruct (update_heatmap_insert (bias_phrase_heatmap st)
                (find content (biased_phrase bias)) bias (bias_index st))
      as (b' & Hupd & Hb').
    rewrite Hupd in Hkb. apply lookup_insert_Some in Hkb as [[<- <-] | [Hne Hkb]].
    + destruct Hb' as [[-> _] | (b0 & Hb0 & Hi & ->)];
        [by apply new_bucket_ok | by apply bump_ok].
    + apply bucket_ok_snoc. by apply (proj2 Hinv).
Qed.

Lemma run_inv_fold biases st :
  run_inv content st → run_inv content (fold_left (record_bias content) biases st).
Proof.
  revert st. induction biases as [|x biases IH]; intros st Hinv; [done |].
  cbn [fold_left]. by apply IH, run_inv_step.
Qed.

Lemma run_inv_id_key st k id :
  run_inv content st → holds_id (bias_phrase_heatmap st) k id →
  ∃ f, found st !! id = Some f ∧ bias_id f = id ∧ phrase_key (bias_instance f) = k.
Proof.
  intros Hinv (b & Hb & Hin).
  destruct (proj2 Hinv _ _ Hb) as (_ & _ & _ & _ & _ & Hid).
  destruct (Hid id Hin) as (f & Hf & Hk & _).
  exists f. split; [done |]. split; [| done].
  pose proof (proj1 Hinv) as Hids.
  apply (f_equal (λ l, l !! id)) in Hids.
  rewrite list_lookup_fmap, Hf in Hids. cbn in Hids.
  pose proof (lookup_lt_Some _ _ _ Hf) as Hlt.
  rewrite (run_inv_length st Hinv) in Hlt.
  rewrite lookup_seq_lt in Hids by done. by injection Hids.
Qed.

Lemma run_inv_unique st k k' id :
  run_inv content st →
  holds_id (bias_phrase_heatmap st) k id → holds_id (bias_phrase_heatmap st) k' id →
  k = k'.
Proof.
  intros Hinv H H'.
  destruct (run_inv_id_key st k id Hinv H) as (f & Hf & _ & <-).
  destruct (run_inv_id_key st k' id Hinv H') as (f' & Hf' & _ & <-).
  congruence.
Qed.

Lemma found_fold biases st :
  bias_instance <$> found (fold_left (record_bias content) biases st)
  = ((bias_instance <$> found st) ++ List.filter (resolved content) biases)%list.
Proof.
  revert st. induction biases as [|x biases IH]; intros st; cbn [fold_left List.filter].
  - by rewrite app_nil_r.
  - rewrite IH. destruct (resolved content x) eqn:Hr.
    + rewrite record_bias_resolved by done. cbn. rewrite fmap_app, <- app_assoc. done.
    + by rewrite record_bias_unresolved.
Qed.

Lemma fold_record_snoc biases bias st :
  fold_left (record_bias content) (biases ++ [bias])%list st
  = record_bias content (fold_left (record_bias content) biases st) bias.
Proof. by rewrite fold_left_app. Qed.

(** While findings of equal key agree on their offset no bucket is ever
    replaced, so every recorded id stays in the heatmap. *)
Lemma ids_kept biases :
  let st := fold_left (record_bias content) biases run_init in
  offsets_agree content (found st) →
  ∀ f, f ∈ found st → ∃ k, holds_id (bias_phrase_heatmap st) k (bias_id f).
Proof.
  induction biases as [|x biases IH] using rev_ind; cbn zeta.
  - intros _ f Hf. by apply elem_of_nil in Hf.
  - rewrite fold_record_snoc.
    set (st := fold_left (record_bias content) biases run_init) in *.
    assert (run_inv content st) as Hinv by apply run_inv_fold, run_inv_init.
    destruct (resolved content x) eqn:Hr; [| by rewrite record_bias_unresolved].
    rewrite record_bias_resolved by done. cbn.
    set (fx := {| bias_id := bias_index st; bias_instance := x |}).
    intros Hagree f Hf.
    destruct (update_heatmap_insert (bias_phrase_heatmap st)
                (find content (biased_phrase x)) x (bias_index st))
      as (b' & -> & Hb').
    assert (¬ ∃ b0, bias_phrase_heatmap st !! phrase_key x = Some b0
                    ∧ index b0 ≠ find content (biased_phrase x)) as Hsame.
    { intros (b0 & Hb0 & Hne).
      destruct (proj2 Hinv _ _ Hb0) as (_ & _ & He & _ & _ & Hid).
      destruct (bias_instances b0) as [|id0 ids] eqn:Eids; [done |].
      destruct (Hid id0) as (g & Hg & Hgk & Hgi); [left |].
      apply Hne. rewrite <- Hgi.
      apply (Hagree g fx); [| | done].
      - apply elem_of_app. left. by eapply list_elem_of_lookup_2.
      - apply elem_of_app. right. by left. }
    apply elem_of_app in Hf as [Hf | ->%list_elem_of_singleton].
    + destruct (IH (λ f g Hf Hg, Hagree f g
                  (proj2 (elem_of_app _ _ _) (or_introl Hf))
                  (proj2 (elem_of_app _ _ _) (or_introl Hg))) f Hf)
        as (k & b & Hb & Hin).
      exists k. destruct (decide (k = phrase_key x)) as [-> | Hne].
      * exists b'. split; [apply lookup_insert_eq |].
        destruct Hb' as [[_ [Hnone | Hdiff]] | (b0 & Hb0 & _ & ->)].
        -- congruence.
        -- by destruct Hsame.
        -- cbn. apply elem_of_app. left. congruence.
      * exists b. split; [by rewrite lookup_insert_ne | done].
    + exists (phrase_key x), b'. split; [apply lookup_insert_eq |].
      destruct Hb' as [[-> _] | (b0 & _ & _ & ->)]; cbn.
      * by left.
      * apply elem_of_app. right. by left.
Qed.

(** ** The claims on the aggregator *)

(** C10: when every call is answered the run returns, the findings it
    returns are the resolved findings of all samples in order, and the
    [i]-th of them carries the id [i]: findings that do not resolve take no
    id. *)
Theorem bias_ids_consecutive self runs samples :
  answers self content (seq 0 runs) samples →
  ∃ insts hm,
    analyze_content self content runs = Parsed (insts, hm) ∧
    bias_instance <$> insts = List.filter (resolved content) (all_biases samples) ∧
    bias_id <$> insts = seq 0 (length insts) ∧
    ∀ i f, insts !! i = Some f → bias_id f = i.
Proof.
  intros Ha.
  set (st := fold_left (record_bias content) (all_biases samples) run_init).
  assert (run_inv content st) as Hinv by apply run_inv_fold, run_inv_init.
  exists (found st), (bias_phrase_heatmap st).
  split; [apply analyze_content_parsed; by exists samples |].
  split; [apply (found_fold _ run_init) |].
  assert (bias_id <$> found st = seq 0 (length (found st))) as Hids
    by (rewrite (run_inv_length st Hinv); apply Hinv).
  split; [done |].
  intros i f Hf.
  apply (f_equal (λ l, l !! i)) in Hids.
  rewrite list_lookup_fmap, Hf, lookup_seq_lt in Hids
    by (by apply lookup_lt_Some in Hf).
  by injection Hids.
Qed.

Lemma run_loop_raised self range st :
  run_loop self content range st = Raised ↔
  ∃ i, i ∈ range ∧ Semantic.openai_client self i (request self content) = Raised.
Proof.
  revert st. induction range as [|j range IH]; intros st; cbn [run_loop].
  - split; [discriminate |]. intros (i & Hi & _). by apply elem_of_nil in Hi.
  - destruct (Semantic.openai_client self j (request self content)) as [|a] eqn:Ej.
    + split; [| done]. intros _. exists j. split; [left | done].
    + rewrite IH. split.
      * intros (i & Hi & Hr). exists i. split; [by right | done].
      * intros (i & Hi & Hr). exists i. split; [| done].
        apply elem_of_cons in Hi as [-> | Hi]; [congruence | done].
Qed.

(** C8, amended: a call of the client that raises ends the whole run with
    that exception, whatever the other samples are, and no aggregate is
    returned; the run raises in no other case. *)
Theorem failed_sample_aborts self runs :
  (∀ i, i < runs →
     Semantic.openai_client self i (request self content) = Raised →
     analyze_content self content runs = Raised) ∧
  (analyze_content self content runs = Raised →
   ∃ i, i < runs ∧ Semantic.openai_client self i (request self content) = Raised).
Proof.
  assert (analyze_content self content runs = Raised ↔
          run_loop self content (seq 0 runs) run_init = Raised) as Hrun.
  { unfold analyze_content. by destruct (run_loop _ _ _ _). }
  rewrite Hrun, run_loop_raised. split.
  - intros i Hi Hr. apply Hrun, run_loop_raised. exists i. split; [| done].
    apply elem_of_seq. lia.
  - intros (i & Hi & Hr). exists i. split; [| done]. apply elem_of_seq in Hi. lia.
Qed.

End Aggregator.

Section AggregatorClaims.

Lemma self_the_run :
  analyze_content self_the doc_the 1
  = Parsed ([ {| bias_id := 0; bias_instance := quoting "The" |};
              {| bias_id := 1; bias_instance := quoting "the" |} ],
            {[ "the" := new_bucket 4 (quoting "the") 1 ]}).
Proof. vm_compute. reflexivity. Qed.

(** C1, as worded, fails: ["The"] is recorded at offset 0 under the key
    ["the"]; recording ["the"], found at offset 4, leaves one bucket under
    that key, the new one, and the bucket of offset 0 is gone. *)
Lemma existing_bucket_preserved_fails :
  ¬ existing_bucket_preserved doc_the st_The (quoting "the").
Proof.
  intros H.
  destruct (H (new_bucket 0 (quoting "The") 0)) as [k Hk].
  - reflexivity.
  - vm_compute. reflexivity.
  - vm_compute. discriminate.
  - assert (bias_phrase_heatmap (record_bias doc_the st_The (quoting "the"))
            = {[ "the" := new_bucket 4 (quoting "the") 1 ]}) as E
      by (vm_compute; reflexivity).
    rewrite E in Hk. apply lookup_singleton_Some in Hk as [_ Hk]. discriminate Hk.
Qed.

(** C1, amended: a resolved finding whose key has a bucket recorded at
    another offset replaces that bucket by a new one (count 1, its own
    offset, phrase and id); the other keys keep their buckets, and the ids of
    the replaced bucket are in no bucket of the heatmap any more. *)
Theorem different_offset_replaces_bucket content biases bias b :
  let st := fold_left (record_bias content) biases run_init in
  let hm' := bias_phrase_heatmap (record_bias content st bias) in
  resolved content bias = true →
  bias_phrase_heatmap st !! phrase_key bias = Some b →
  index b ≠ find content (biased_phrase bias) →
  hm' = <[phrase_key bias :=
            new_bucket (find content (biased_phrase bias)) bias (bias_index st)]>
          (bias_phrase_heatmap st) ∧
  (∀ k, k ≠ phrase_key bias → hm' !! k = bias_phrase_heatmap st !! k) ∧
  (∀ id k, id ∈ bias_instances b → ¬ holds_id hm' k id).
Proof.
  intros st hm' Hr Hb Hne. subst hm'.
  assert (run_inv content st) as Hinv by apply run_inv_fold, run_inv_init.
  rewrite record_bias_resolved by done. cbn.
  assert (update_heatmap (bias_phrase_heatmap st) (find content (biased_phrase bias))
            bias (bias_index st)
          = <[phrase_key bias :=
                new_bucket (find content (biased_phrase bias)) bias (bias_index st)]>
              (bias_phrase_heatmap st)) as ->.
  { unfold update_heatmap. rewrite Hb.
    by destruct (Z.eqb_spec (index b) (find content (biased_phrase bias))). }
  split; [done |]. split; [intros k Hk; by rewrite lookup_insert_ne |].
  intros id k Hin (b' & Hb' & Hin').
  apply lookup_insert_Some in Hb' as [[<- <-] | [Hk Hb']].
  - cbn in Hin'. apply list_elem_of_singleton in Hin'.
    pose proof (run_inv_id_bound content st _ _ _ Hinv Hb Hin). lia.
  - apply Hk. apply (run_inv_unique content st _ _ id Hinv); [by exists b | by exists b'].
Qed.

Lemma different_offset_replaces_bucket_witness :
  bias_phrase_heatmap (record_bias doc_the st_The (quoting "the")) !! "the"
  = Some (new_bucket 4 (quoting "the") 1).
Proof.
  destruct (different_offset_replaces_bucket doc_the [quoting "The"] (quoting "the")
              (new_bucket 0 (quoting "The") 0)) as (E & _).
  - reflexivity.
  - vm_compute. reflexivity.
  - vm_compute. discriminate.
  - unfold st_The. cbn [fold_left] in E. rewrite E. apply lookup_insert_eq.
Defined.

(** C2, as worded, fails: in the run of [self_the] the id 0 is assigned and
    is in no bucket of the heatmap returned. *)
Lemma ids_partitioned_fails :
  ∃ insts hm,
    analyze_content self_the doc_the 1 = Parsed (insts, hm) ∧
    ¬ ids_partitioned insts hm.
Proof.
  eexists _, _. split; [apply self_the_run |].
  intros [_ H].
  destruct (H {| bias_id := 0; bias_instance := quoting "The" |}) as (k & (b & Hb & Hin) & _);
    [by left |].
  apply lookup_singleton_Some in Hb as [_ <-].
  cbn in Hin. apply list_elem_of_singleton in Hin. discriminate Hin.
Qed.

(** C2, amended: in the heatmap returned every bucket counts the ids it
    lists, lists none twice and only ids of findings returned; no id is in
    the buckets of two keys; and where all the findings of equal key resolve
    to equal offsets, every id is in exactly one bucket. *)
Theorem heatmap_ids content self runs insts hm :
  analyze_content self content runs = Parsed (insts, hm) →
  counts_match hm ∧
  (∀ k b, hm !! k = Some b → NoDup (bias_instances b)) ∧
  (∀ k id, holds_id hm k id → ∃ f, insts !! id = Some f ∧ bias_id f = id) ∧
  (∀ k k' id, holds_id hm k id → holds_id hm k' id → k = k') ∧
  (offsets_agree content insts → ids_partitioned insts hm).
Proof.
  intros H.
  apply (analyze_content_parsed content self runs insts hm) in H
    as (samples & _ & -> & ->).
  set (st := fold_left (record_bias content) (all_biases samples) run_init).
  assert (run_inv content st) as Hinv by (unfold st; apply run_inv_fold, run_inv_init).
  assert (counts_match (bias_phrase_heatmap st)) as Hcount.
  { intros k b Hb. by destruct (proj2 Hinv _ _ Hb) as (? & _). }
  split; [done |]. split.
  { intros k b Hb. by destruct (proj2 Hinv _ _ Hb) as (_ & ? & _). }
  split.
  { intros k id Hh. destruct (run_inv_id_key content st k id Hinv Hh) as (f & ? & ? & _).
    by exists f. }
  split; [intros k k' id; by apply (run_inv_unique content st) |].
  intros Hagree. split; [done |].
  intros f Hf. destruct (ids_kept content (all_biases samples) Hagree f Hf) as [k Hk].
  exists k. split; [done |]. intros k' Hk'.
  by apply (run_inv_unique content st k' k (bias_id f)).
Qed.

Lemma heatmap_ids_witness :
  ∃ insts hm,
    analyze_content self_twice doc_bad 1 = Parsed (insts, hm) ∧
    counts_match hm ∧ ids_partitioned insts hm.
Proof.
  destruct (analyze_content self_twice doc_bad 1) as [|[insts hm]] eqn:E.
  - vm_compute in E. discriminate E.
  - exists insts, hm. split; [reflexivity |].
    destruct (heatmap_ids doc_bad self_twice 1 insts hm E) as (Hc & _ & _ & _ & Hp).
    split; [exact Hc |]. apply Hp.
    vm_compute in E. injection E as <- _.
    intros f g Hf Hg _.
    apply elem_of_cons in Hf as [-> | Hf]; [| apply list_elem_of_singleton in Hf as ->];
      (apply elem_of_cons in Hg as [-> | Hg]; [| apply list_elem_of_singleton in Hg as ->]);
      reflexivity.
Defined.

Lemma bias_ids_consecutive_witness :
  ∃ insts hm,
    analyze_content self_flaky doc_bad 1 = Parsed (insts, hm) ∧
    bias_id <$> insts = seq 0 (length insts).
Proof.
  destruct (bias_ids_consecutive doc_bad self_flaky 1 [reporting [quoting "bad"]])
    as (insts & hm & E & _ & Hids & _).
  - repeat constructor.
  - by exists insts, hm.
Defined.

(** C8, as worded, fails: the second of the three calls of [self_flaky]
    raises, and the run returns no aggregate. *)
Lemma survives_failure_fails : ¬ survives_failure self_flaky doc_bad 3.
Proof.
  intros H. destruct (H 1) as [r Hr]; [lia | reflexivity |].
  vm_compute in Hr. discriminate Hr.
Qed.

Lemma failed_sample_aborts_witness : analyze_content self_flaky doc_bad 3 = Raised.
Proof.
  apply (proj1 (failed_sample_aborts doc_bad self_flaky 3) 1); [lia | reflexivity].
Defined.

(** ** Counts of one sample and of repeated samples *)

Lemma fresh_counts content biases st (seen : list (string * Z)) :
  (∀ k b, bias_phrase_heatmap st !! k = Some b →
     occurrence_count b = 1 ∧ (k, index b) ∈ seen) →
  NoDup (seen ++ (spot content <$> List.filter (resolved content) biases))%list →
  ∀ k b, bias_phrase_heatmap (fold_left (record_bias content) biases st) !! k = Some b →
    occurrence_count b = 1.
Proof.
  revert st seen. induction biases as [|x biases IH]; intros st seen Hst Hnd;
    cbn [fold_left List.filter] in *.
  - intros k b Hb. by apply (Hst k b).
  - destruct (resolved content x) eqn:Hr; [| rewrite record_bias_unresolved by done; eauto].
    rewrite fmap_cons in Hnd.
    apply (IH _ (seen ++ [spot content x])%list); [| by rewrite <- app_assoc].
    apply NoDup_app in Hnd as (_ & Hfresh & _).
    rewrite record_bias_resolved by done. cbn.
    intros k b Hb.
    destruct (update_heatmap_insert (bias_phrase_heatmap st)
                (find content (biased_phrase x)) x (bias_index st))
      as (b' & Hupd & Hb').
    rewrite Hupd in Hb. apply lookup_insert_Some in Hb as [[<- <-] | [Hne Hb]].
    + destruct Hb' as [[-> _] | (b0 & Hb0 & Hi & ->)].
      * split; [done |]. apply elem_of_app. right. by left.
      * destruct (Hst _ _ Hb0) as [_ Hseen]. rewrite Hi in Hseen.
        destruct (Hfresh _ Hseen). by left.
    + destruct (Hst _ _ Hb) as [Hc Hseen]. split; [done |].
      apply elem_of_app. by left.
Qed.

Lemma bump_bucket_of content bias n :
  bump (bucket_of content bias n) n = bucket_of content bias (S n).
Proof.
  unfold bump, bucket_of. cbn [index occurrence_count bias_phrase bias_instances].
  by rewrite Nat.add_1_r, seq_S.
Qed.

Lemma repeated_fold content bias n j st :
  resolved content bias = true →
  bias_phrase_heatmap st = {[ phrase_key bias := bucket_of content bias j ]} →
  bias_index st = j →
  bias_phrase_heatmap (fold_left (record_bias content) (replicate n bias) st)
  = {[ phrase_key bias := bucket_of content bias (j + n) ]}.
Proof.
  intros Hr. revert j st. induction n as [|n IH]; intros j st Hhm Hj; cbn [replicate fold_left].
  - by rewrite Nat.add_0_r.
  - rewrite (IH (S j)); [f_equal; f_equal; lia | |].
    + rewrite record_bias_resolved by done. cbn.
      unfold update_heatmap. rewrite Hhm, lookup_singleton_eq, Hj. cbn.
      rewrite Z.eqb_refl. cbn.
      by rewrite insert_singleton_eq, bump_bucket_of.
    + rewrite record_bias_resolved by done. cbn. lia.
Qed.

Lemma same_finding_biases bias samples :
  Forall (λ a, detected_biases a = [bias]) samples →
  all_biases samples = replicate (length samples) bias.
Proof.
  induction 1 as [|a samples Ha _ IH]; [done |].
  by rewrite all_biases_cons, Ha, IH.
Qed.

(** C4, as worded, fails: the one sample of [self_twice] reports the same
    phrase twice, and its bucket counts 2. *)
Lemma single_sample_counts_one_fails : ¬ single_sample_counts_one self_twice doc_bad.
Proof.
  intros H.
  assert (analyze_content self_twice doc_bad 1
          = Parsed ([ {| bias_id := 0; bias_instance := quoting "bad" |};
                      {| bias_id := 1; bias_instance := quoting "bad" |} ],
                    {[ "bad" := bucket_of doc_bad (quoting "bad") 2 ]})) as E
    by (vm_compute; reflexivity).
  specialize (H _ _ E "bad" _ (lookup_singleton_eq _ _)).
  discriminate H.
Qed.

(** C4, amended: a run of one sample whose resolved findings differ
    pairwise in key or in offset gives every bucket the count 1; and a run
    of [N ≥ 1] samples that each report the one finding [bias], which
    resolves, gives exactly one bucket, with count [N] and the ids [0..N-1]. *)
Theorem dedup_counts content self :
  (∀ a,
     Semantic.openai_client self 0 (request self content) = Parsed a →
     NoDup (spot content <$> List.filter (resolved content) (detected_biases a)) →
     ∃ insts hm,
       analyze_content self content 1 = Parsed (insts, hm) ∧
       ∀ k b, hm !! k = Some b → occurrence_count b = 1) ∧
  (∀ (N : nat) samples bias,
     (1 ≤ N)%nat →
     answers self content (seq 0 N) samples →
     Forall (λ a, detected_biases a = [bias]) samples →
     resolved content bias = true →
     ∃ insts,
       analyze_content self content N
       = Parsed (insts, {[ phrase_key bias := bucket_of content bias N ]})).
Proof.
  split.
  - intros a Ha Hnd.
    set (st := fold_left (record_bias content) (all_biases [a]) run_init).
    exists (found st), (bias_phrase_heatmap st).
    split; [apply analyze_content_parsed; exists [a]; by repeat constructor |].
    unfold st, all_biases. cbn [fmap list_fmap concat]. rewrite app_nil_r.
    apply (fresh_counts content _ run_init []); [| done].
    intros k b Hb. cbn in Hb. by apply lookup_empty_Some in Hb.
  - intros N samples bias HN Ha Hall Hr.
    set (st := fold_left (record_bias content) (all_biases samples) run_init).
    exists (found st).
    apply analyze_content_parsed. exists samples. split; [done |]. split; [done |].
    rewrite (same_finding_biases bias) by done.
    apply Forall2_length in Ha. rewrite length_seq in Ha. rewrite <- Ha.
    destruct N as [|n]; [lia |]. cbn [replicate fold_left].
    rewrite (repeated_fold content bias n 1); [done | done | | ].
    + by rewrite record_bias_resolved.
    + by rewrite record_bias_resolved.
Qed.

Lemma dedup_counts_witness :
  (∃ insts hm,
     analyze_content self_the doc_the 1 = Parsed (insts, hm) ∧
     ∀ k b, hm !! k = Some b → occurrence_count b = 1) ∧
  (∃ insts,
     analyze_content self_flaky doc_bad 1
     = Parsed (insts, {[ "bad" := bucket_of doc_bad (quoting "bad") 1 ]})).
Proof.
  split.
  - apply (proj1 (dedup_counts doc_the self_the) (reporting [quoting "The"; quoting "the"]));
      [reflexivity |].
    vm_compute. apply NoDup_cons_2; [| apply NoDup_singleton].
    intros H. apply list_elem_of_singleton in H. discriminate H.
  - apply (proj2 (dedup_counts doc_bad self_flaky) 1 [reporting [quoting "bad"]] (quoting "bad"));
      [lia | repeat constructor | repeat constructor | reflexivity].
Defined.

(** ** The keys of the heatmap *)















End AggregatorClaims.

(** * The Edit Applier *)
Section EditApplierFacts.











(** The applier does apply: the example of section 8 of the specification,
    and the empty batch. *)
Lemma apply_edits_example :
  apply_edits doc_conflict [edit_in]
  = Applied "The conflict began [following the UN partition plan] 1948.".
Proof. reflexivity. Qed.

Lemma apply_edits_nil document : apply_edits document [] = Applied document.
Proof.
  unfold apply_edits. cbn. rewrite Nat.sub_0_r.
  f_equal. induction document as [|c d IH]; [done |]. cbn. by rewrite IH.
Qed.



End EditApplierFacts.

(** * Further properties of the segmenter *)
Section SegmenterMore.

Lemma replay_lookup_Some ws m k v :
  replay ws m !! k = Some v →
  m !! k = Some v ∨ ∃ w, w ∈ ws ∧ w.1 = k ∧ v = join blank w.2.
Proof.
  induction ws as [|w ws IH] using rev_ind; [by left |].
  rewrite replay_snoc. intros [[<- <-] | [Hne Hv]]%lookup_insert_Some.
  - right. exists w. split; [| done]. apply elem_of_app. right. by left.
  - destruct (IH Hv) as [Hm | (w' & Hw' & Hk & ->)]; [by left |].
    right. exists w'. split; [| done]. apply elem_of_app. by left.
Qed.

Lemma writes_runs ps name content w :
  Forall (λ p, is_header p = false) content →
  w ∈ writes name content ps →
  w.2 ≠ [] ∧ Forall (λ p, is_header p = false) w.2 ∧
  ∃ pre post, (content ++ ps = pre ++ w.2 ++ post)%list.
Proof.
  revert name content. induction ps as [|p ps IH]; intros name content Hc Hw.
  - destruct content as [|c content]; cbn in Hw; [by apply elem_of_nil in Hw |].
    apply list_elem_of_singleton in Hw as ->. cbn [snd].
    split; [done |]. split; [done |]. exists [], []. by rewrite !app_nil_r.
  - destruct (is_header p) eqn:Hp.
    + rewrite writes_header in Hw by done. apply elem_of_app in Hw as [Hw | Hw].
      * destruct content as [|c content]; cbn in Hw; [by apply elem_of_nil in Hw |].
        apply list_elem_of_singleton in Hw as ->. cbn [snd].
        split; [done |]. split; [done |]. by exists [], (p :: ps).
      * destruct (IH _ [] (Forall_nil_2 _) Hw) as (Hne & Hf & pre & post & E).
        split; [done |]. split; [done |].
        exists (content ++ p :: pre)%list, post. cbn in E.
        rewrite E, <- !app_assoc. reflexivity.
    + rewrite writes_block in Hw by done.
      destruct (IH name (content ++ [p])%list) with (2 := Hw) as (Hne & Hf & pre & post & E).
      * apply Forall_app. split; [done |]. by constructor.
      * split; [done |]. split; [done |]. exists pre, post.
        rewrite <- E, <- app_assoc. reflexivity.
Qed.

(** X1: a document none of whose blocks is a header is stored whole, as the
    one section ["Introduction"]. *)
Theorem chunk_content_no_headers text :
  Forall (λ p, is_header p = false) (split_blank text) →
  chunk_content text = {[ "Introduction" := text ]}.
Proof.
  intros Hb. rewrite chunk_content_writes.
  assert (writes "Introduction" [] (split_blank text)
          = [("Introduction", split_blank text)]) as ->.
  { rewrite <- (app_nil_r (split_blank text)), writes_run by done.
    rewrite app_nil_r. cbn [app writes].
    pose proof (split_blank_nonempty text). by destruct (split_blank text). }
  cbn. by rewrite (proj2 (split_blank_spec text)).
Qed.

Lemma chunk_content_no_headers_witness :
  chunk_content ("one" +:+ blank +:+ "two") = {[ "Introduction" := "one" +:+ blank +:+ "two" ]}.
Proof.
  apply chunk_content_no_headers. vm_compute. repeat constructor.
Defined.

Lemma writes_only_headers ps name :
  Forall (λ p, is_header p = true) ps → writes name [] ps = [].
Proof.
  intros H. revert name. induction H as [|p ps Hp _ IH]; intros name; [done |].
  rewrite writes_header by done. apply IH.
Qed.

Lemma writes_nil ps name content :
  writes name content ps = [] → content = [] ∧ Forall (λ p, is_header p = true) ps.
Proof.
  revert name content. induction ps as [|p ps IH]; intros name content H.
  - split; [| constructor]. by destruct content.
  - destruct (is_header p) eqn:Hp.
    + rewrite writes_header in H by done. apply app_eq_nil in H as [Hc Hw].
      split; [by destruct content |]. constructor; [done |]. by destruct (IH _ _ Hw).
    + rewrite writes_block in H by done. apply IH in H as [H _].
      by destruct content.
Qed.

Lemma replay_empty ws : replay ws ∅ = ∅ → ws = [].
Proof.
  destruct ws as [|w ws _] using rev_ind; [done |].
  rewrite replay_snoc. intros H. by apply insert_non_empty in H.
Qed.

(** X2: the output is the empty mapping exactly when every block of the
    document is a header: a header that no body block follows is not
    stored, and a document with a block that is not a header gives at least
    one section. *)
Theorem chunk_content_only_headers text :
  chunk_content text = ∅ ↔ Forall (λ p, is_header p = true) (split_blank text).
Proof.
  rewrite chunk_content_writes. split.
  - intros H. apply replay_empty in H. by apply writes_nil in H as [_ H].
  - intros H. by rewrite writes_only_headers.
Qed.

Lemma chunk_content_only_headers_witness :
  chunk_content ("# A" +:+ blank +:+ "## B") = ∅.
Proof.
  apply (proj2 (chunk_content_only_headers ("# A" +:+ blank +:+ "## B"))).
  vm_compute. repeat constructor.
Defined.

Lemma chunk_lookup_origin text k body :
  chunk_content text !! k = Some body →
  (k = "Introduction" ∨
   ∃ h, h ∈ split_blank text ∧ is_header h = true ∧ k = section_title h) ∧
  ∃ blocks pre post,
    blocks ≠ [] ∧
    Forall (λ p, is_header p = false) blocks ∧
    split_blank text = (pre ++ blocks ++ post)%list ∧
    body = join blank blocks ∧
    split_blank body = blocks.
Proof.
  rewrite chunk_content_writes. intros H.
  apply replay_lookup_Some in H as [H | (w & Hw & <- & ->)];
    [by apply lookup_empty_Some in H |].
  split.
  - apply (writes_names _ "Introduction" []). apply list_elem_of_fmap. by exists w.
  - destruct (writes_runs _ _ _ w (Forall_nil_2 _) Hw) as (Hne & Hf & pre & post & E).
    exists w.2, pre, post. cbn in E. repeat split; try done.
    apply split_blank_join; [| done].
    pose proof (proj1 (split_blank_spec text)) as Hj. rewrite E in Hj.
    by apply joinable_app_r, joinable_app_l in Hj.
Qed.


(** X3: every section of the output comes from the document: its name is
    ["Introduction"] or the title of a header block, and its body is the
    join of a run of consecutive blocks of the document, none of them a
    header and at least one, which splitting the body gives back. *)
Theorem stored_section_origin text k body :
  chunk_content text !! k = Some body →
  (k = "Introduction" ∨
   ∃ h, h ∈ split_blank text ∧ is_header h = true ∧ k = section_title h) ∧
  ∃ blocks pre post,
    blocks ≠ [] ∧
    Forall (λ p, is_header p = false) blocks ∧
    split_blank text = (pre ++ blocks ++ post)%list ∧
    body = join blank blocks ∧
    split_blank body = blocks.
Proof. apply chunk_lookup_origin. Qed.

Lemma stored_section_origin_witness :
  ∃ blocks pre post,
    blocks ≠ [] ∧
    Forall (λ p, is_header p = false) blocks ∧
    split_blank doc_repeated_name = (pre ++ blocks ++ post)%list ∧
    "y" = join blank blocks ∧
    split_blank "y" = blocks.
Proof.
  apply (stored_section_origin doc_repeated_name "A" "y"). vm_compute. reflexivity.
Defined.

Lemma sum_insert_le {A} (f : string * A → nat) k v (m : gmap string A) :
  (sum_list_with f (map_to_list (<[k:=v]> m))
   ≤ f (k, v) + sum_list_with f (map_to_list m))%nat.
Proof.
  destruct (m !! k) as [v0|] eqn:E.
  - rewrite <- insert_delete_eq.
    rewrite map_to_list_insert by apply lookup_delete_eq.
    rewrite <- (map_to_list_delete m k v0 E). cbn. lia.
  - rewrite map_to_list_insert by done. cbn. lia.
Qed.

Lemma replay_blocks_le ws :
  (emitted_blocks (replay ws ∅)
   ≤ sum_list_with (λ w, body_blocks (join blank w.2)) ws)%nat.
Proof.
  induction ws as [|w ws IH] using rev_ind.
  - unfold emitted_blocks. cbn. by rewrite map_to_list_empty.
  - rewrite replay_snoc, sum_list_with_app. unfold emitted_blocks in *.
    pose proof (sum_insert_le (λ kv : string * string, body_blocks kv.2)
                  w.1 (join blank w.2) (replay ws ∅)) as Hle.
    cbn [sum_list_with] in *. cbn beta in *.
    change (body_blocks (w.1, join blank w.2).2) with (body_blocks (join blank w.2)) in Hle.
    lia.
Qed.

(** X4: segmentation never adds a block: the bodies of the output have
    together at most as many blocks as the document has blocks that are not
    headers. *)
Theorem emitted_blocks_bounded text :
  (emitted_blocks (chunk_content text) ≤ non_header_blocks text)%nat.
Proof.
  rewrite chunk_content_writes. etrans; [apply replay_blocks_le |].
  rewrite joined_blocks by (apply writes_joinable; cbn; apply split_blank_spec).
  unfold non_header_blocks. by rewrite writes_blocks.
Qed.

End SegmenterMore.

(** * Trimming and cleaning of the markdown text *)
Section Cleaning.

Lemma lstrip_starts s : starts_space (lstrip s) = false.
Proof.
  induction s as [|c s IH]; [done |].
  cbn. destruct (is_space c) eqn:Hc; [done |]. cbn. exact Hc.
Qed.

Lemma rstrip_cons c s :
  rstrip (String c s) =
  match rstrip s with
  | EmptyString => if is_space c then EmptyString else String c EmptyString
  | r => String c r
  end.
Proof. reflexivity. Qed.

Lemma rstrip_ends s : ends_space (rstrip s) = false.
Proof.
  induction s as [|c s IH]; [done |].
  rewrite rstrip_cons. destruct (rstrip s) as [|c' r].
  - destruct (is_space c) eqn:Hc; [done |]. cbn. exact Hc.
  - exact IH.
Qed.

Lemma rstrip_starts s : starts_space s = false → starts_space (rstrip s) = false.
Proof.
  destruct s as [|c s]; [done |]. cbn [starts_space]. intros Hc.
  rewrite rstrip_cons. destruct (rstrip s); [by rewrite Hc |]; done.
Qed.

Lemma lstrip_id s : starts_space s = false → lstrip s = s.
Proof. destruct s as [|c s]; [done |]. cbn. by intros ->. Qed.

Lemma rstrip_id s : ends_space s = false → rstrip s = s.
Proof.
  induction s as [|c s IH]; [done |]. intros He. rewrite rstrip_cons.
  destruct s as [|c' s]; [cbn in *; by rewrite He |].
  rewrite IH by exact He. reflexivity.
Qed.

Lemma strip_trimmed s :
  starts_space (strip s) = false ∧ ends_space (strip s) = false.
Proof.
  unfold strip. split; [apply rstrip_starts, lstrip_starts | apply rstrip_ends].
Qed.

(** X5: the name of a section made from a header has no white space at
    either end, and trimming it again changes nothing. *)
Theorem section_title_trimmed paragraph :
  starts_space (section_title paragraph) = false ∧
  ends_space (section_title paragraph) = false ∧
  strip (section_title paragraph) = section_title paragraph.
Proof.
  unfold section_title.
  destruct (strip_trimmed (lstrip_char hash paragraph)) as [Hs He].
  split; [done |]. split; [done |].
  unfold strip at 1. by rewrite lstrip_id, rstrip_id.
Qed.

(** ** Line breaks *)

Lemma no_triple_cons3 c1 c2 c3 s :
  no_triple (String c1 (String c2 (String c3 s))) =
  negb (Ascii.eqb c1 nl && Ascii.eqb c2 nl && Ascii.eqb c3 nl)
  && no_triple (String c2 (String c3 s)).
Proof. reflexivity. Qed.

Lemma no_triple_tail c s : no_triple (String c s) = true → no_triple s = true.
Proof. cbn [no_triple]. by intros [_ H]%andb_prop. Qed.

Lemma no_triple_app_r a b : no_triple (a +:+ b) = true → no_triple b = true.
Proof. induction a as [|c a IH]; [done |]. intros H. by apply IH, (no_triple_tail c). Qed.

Lemma no_triple_app_l a b : no_triple (a +:+ b) = true → no_triple a = true.
Proof.
  induction a as [|c1 a IH]; [done |]. intros H.
  pose proof (IH (no_triple_tail _ _ H)) as Ha.
  destruct a as [|c2 [|c3 a]]; [done | done |].
  change (String c1 (String c2 (String c3 a)) +:+ b)
    with (String c1 (String c2 (String c3 (a +:+ b)))) in H.
  rewrite no_triple_cons3 in *. apply andb_prop in H as [H _]. by rewrite H, Ha.
Qed.

Lemma no_triple_other c s :
  Ascii.eqb c nl = false → no_triple s = true → no_triple (String c s) = true.
Proof.
  intros Hc Hs. destruct s as [|c2 [|c3 s]]; [done | done |].
  by rewrite no_triple_cons3, Hc, Hs.
Qed.

Lemma no_triple_nls_other run c s :
  (run ≤ 2)%nat → Ascii.eqb c nl = false → no_triple s = true →
  no_triple (nls run +:+ String c s) = true.
Proof.
  intros Hrun Hc Hs. pose proof (no_triple_other c s Hc Hs) as H0.
  destruct run as [|[|[|run]]]; [done | | | lia].
  - change (no_triple (String nl (String c s)) = true).
    destruct s as [|c3 s]; [done |]. by rewrite no_triple_cons3, Hc, andb_false_r, H0.
  - change (no_triple (String nl (String nl (String c s))) = true).
    rewrite no_triple_cons3, Hc, andb_false_r. cbn [negb andb].
    destruct s as [|c3 s]; [done |]. by rewrite no_triple_cons3, Hc, andb_false_r, H0.
Qed.

Lemma nls_snoc run s : nls run +:+ String nl s = nls (S run) +:+ s.
Proof.
  induction run as [|run IH]; [done |].
  change (String nl (nls run +:+ String nl s) = String nl (nls (S run) +:+ s)).
  by rewrite IH.
Qed.

Lemma collapse_from_no_triple s run :
  (run ≤ 2)%nat → no_triple (nls run +:+ collapse_from run s) = true.
Proof.
  revert run. induction s as [|c s IH]; intros run Hrun.
  - by destruct run as [|[|[|run]]]; [| | | lia].
  - cbn [collapse_from]. destruct (Ascii.eqb c nl) eqn:Hc.
    + destruct (Nat.ltb_spec run 2).
      * rewrite nls_snoc. apply IH. lia.
      * apply IH. lia.
    + apply no_triple_nls_other; [done | done |]. apply (IH 0). lia.
Qed.

Lemma collapse_from_id s run :
  (run ≤ 2)%nat → no_triple (nls run +:+ s) = true → collapse_from run s = s.
Proof.
  revert run. induction s as [|c s IH]; intros run Hrun Hs; [done |].
  cbn [collapse_from]. destruct (Ascii.eqb c nl) eqn:Hc.
  - apply Ascii.eqb_eq in Hc as ->. destruct (Nat.ltb_spec run 2).
    + f_equal. apply IH; [lia |]. by rewrite <- nls_snoc.
    + assert (run = 2) as -> by lia.
      apply no_triple_app_l with (a := String nl (String nl (String nl EmptyString))) in Hs.
      discriminate Hs.
  - f_equal. apply (IH 0); [lia |]. by apply no_triple_app_r, no_triple_tail in Hs.
Qed.

Lemma collapse_from_without_nl s run :
  without_nl (collapse_from run s) = without_nl s.
Proof.
  revert run. induction s as [|c s IH]; intros run; [done |].
  cbn [collapse_from without_nl]. destruct (Ascii.eqb c nl) eqn:Hc.
  - destruct (run <? 2)%nat; [| done]. cbn. apply IH.
  - cbn. by rewrite Hc, IH.
Qed.

(** X6: collapsing the line breaks leaves no three of them in a row,
    removes nothing but line breaks, and leaves a text without three line
    breaks in a row as it is. *)
Theorem collapse_newlines_spec s :
  no_triple (collapse_newlines s) = true ∧
  without_nl (collapse_newlines s) = without_nl s ∧
  (no_triple s = true → collapse_newlines s = s).
Proof.
  unfold collapse_newlines. split; [| split].
  - apply (collapse_from_no_triple s 0). lia.
  - apply collapse_from_without_nl.
  - intros Hs. apply collapse_from_id; [lia | done].
Qed.

End Cleaning.

Lemma collapse_newlines_spec_witness :
  collapse_newlines ("a" +:+ blank +:+ "b") = "a" +:+ blank +:+ "b".
Proof.
  apply (proj2 (proj2 (collapse_newlines_spec ("a" +:+ blank +:+ "b")))). reflexivity.
Defined.

(** * Cleaning of the markdown text *)
Section Markdown.

Lemma ref_tail_app s seen X :
  ref_tail seen (s +:+ String "[" X) = ref_tail seen s.
Proof.
  revert seen. induction s as [|c s IH]; intros seen; [done |].
  change (String c s +:+ String "[" X) with (String c (s +:+ String "[" X)).
  cbn [ref_tail]. destruct (is_digit c); [by rewrite IH | done].
Qed.

Lemma ref_tail_bound s seen n : ref_tail seen s = Some n → (n ≤ String.length s)%nat.
Proof.
  revert seen n. induction s as [|c s IH]; intros seen n; [done |].
  cbn [ref_tail String.length]. destruct (is_digit c).
  - destruct (ref_tail true s) as [m|] eqn:E; [| done].
    intros [= <-]. apply IH in E. lia.
  - destruct (Ascii.eqb c "]" && seen); [| done]. intros [= <-]. lia.
Qed.

Lemma ref_length_app c s X :
  ref_length (String c s +:+ String "[" X) = ref_length (String c s).
Proof.
  change (String c s +:+ String "[" X) with (String c (s +:+ String "[" X)).
  cbn [ref_length]. destruct (Ascii.eqb c "["); [| done].
  by rewrite ref_tail_app.
Qed.

Lemma ref_length_bound c s n :
  ref_length (String c s) = Some n → (n - 1 ≤ String.length s)%nat.
Proof.
  cbn [ref_length]. destruct (Ascii.eqb c "["); [| done].
  destruct (ref_tail false s) as [m|] eqn:E; [| done].
  intros [= <-]. apply ref_tail_bound in E. lia.
Qed.

Lemma sub_refs_app a skip X :
  (skip ≤ String.length a)%nat →
  sub_refs skip (a +:+ String "[" X) = sub_refs skip a +:+ sub_refs 0 (String "[" X).
Proof.
  remember (sub_refs 0 (String "[" X)) as R eqn:HR.
  revert skip. induction a as [|c a IH]; intros skip Hs.
  - cbn in Hs. assert (skip = 0) as -> by lia. by rewrite HR.
  - change (String c a +:+ String "[" X) with (String c (a +:+ String "[" X)).
    cbn [sub_refs]. destruct skip as [|k].
    + change (String c (a +:+ String "[" X)) with (String c a +:+ String "[" X).
      rewrite ref_length_app.
      destruct (ref_length (String c a)) as [n|] eqn:E.
      * apply IH. by apply (ref_length_bound c).
      * change (String c (sub_refs 0 a) +:+ R) with (String c (sub_refs 0 a +:+ R)).
        f_equal. apply IH. lia.
    + apply IH. cbn in Hs. lia.
Qed.

Lemma ref_tail_digits ds seen b :
  all_digits ds = true → seen = true ∨ ds ≠ EmptyString →
  ref_tail seen (ds +:+ String "]" b) = Some (S (String.length ds)).
Proof.
  revert seen. induction ds as [|c ds IH]; intros seen Hd Hs.
  - destruct Hs as [-> | Hs]; [done | congruence].
  - cbn in Hd. apply andb_prop in Hd as [Hc Hd].
    change (String c ds +:+ String "]" b) with (String c (ds +:+ String "]" b)).
    cbn [ref_tail String.length]. rewrite Hc, IH; [done | done | by left].
Qed.

Lemma sub_refs_skip ds c b :
  sub_refs (S (String.length ds)) (ds +:+ String c b) = sub_refs 0 b.
Proof. induction ds as [|d ds IH]; [done |]. exact IH. Qed.

Lemma sub_refs_plain s : has_char "[" s = false → sub_refs 0 s = s.
Proof.
  induction s as [|c s IH]; [done |]. cbn [has_char]. intros [Hc Hs]%orb_false_elim.
  cbn [sub_refs ref_length]. rewrite Hc, IH by done. reflexivity.
Qed.

(** X7: a text without an opening bracket is left as it is; and a
    reference mark, an opening bracket, one or more digits and a closing
    bracket, is deleted wherever it stands, the text before it and the text
    after it being cleaned on their own. *)
Theorem remove_references_spec :
  (∀ s, has_char "[" s = false → remove_references s = s) ∧
  (∀ a ds b,
     ds ≠ EmptyString → all_digits ds = true →
     remove_references (a +:+ String "[" (ds +:+ String "]" b))
     = remove_references a +:+ remove_references b).
Proof.
  split; [apply sub_refs_plain |].
  intros a ds b Hne Hd. unfold remove_references.
  rewrite sub_refs_app by lia. f_equal.
  cbn [sub_refs ref_length]. rewrite Ascii.eqb_refl, (ref_tail_digits ds false b Hd) by by right.
  cbn [fmap option_fmap option_map]. rewrite Nat.sub_succ, Nat.sub_0_r.
  apply sub_refs_skip.
Qed.

Lemma remove_references_spec_witness :
  remove_references "Rome[12] fell[3]." = "Rome fell.".
Proof.
  destruct remove_references_spec as [Hplain Hmark].
  change "Rome[12] fell[3]." with ("Rome" +:+ String "[" ("12" +:+ String "]" " fell[3].")).
  rewrite Hmark by done.
  change " fell[3]." with (" fell" +:+ String "[" ("3" +:+ String "]" ".")).
  rewrite Hmark by done.
  rewrite !Hplain by reflexivity. reflexivity.
Defined.

End Markdown.

(** * The sections of a converted page *)
Section ConvertedSections.

Lemma starts_nl_space p : starts_space p = false → starts_nl p = false.
Proof.
  destruct p as [|c p]; [done |]. cbn.
  destruct (Ascii.eqb_spec c nl) as [-> | _]; [discriminate | done].
Qed.

Lemma ends_nl_space p : ends_space p = false → ends_nl p = false.
Proof.
  induction p as [|c p IH]; [done |]. destruct p as [|c' p].
  - cbn. destruct (Ascii.eqb_spec c nl) as [-> | _]; [discriminate | done].
  - exact IH.
Qed.

Lemma ends_nl_app a b : b ≠ EmptyString → ends_nl (a +:+ b) = ends_nl b.
Proof.
  intros Hb. induction a as [|c a IH]; [done |].
  change (String c a +:+ b) with (String c (a +:+ b)).
  destruct (a +:+ b) as [|c' r] eqn:E; [| exact IH].
  destruct a as [|c' a]; [by apply Hb in E | discriminate E].
Qed.

Lemma no_triple_ends_nl p r :
  ends_nl p = true → no_triple (p +:+ blank +:+ r) = false.
Proof.
  induction p as [|c p IH]; [done |]. destruct p as [|c' p].
  - cbn [ends_nl]. intros ->%Ascii.eqb_eq. reflexivity.
  - intros He. specialize (IH He).
    change (String c (String c' p) +:+ blank +:+ r)
      with (String c (String c' p +:+ blank +:+ r)).
    destruct (no_triple (String c (String c' p +:+ blank +:+ r))) eqn:E; [| done].
    apply no_triple_tail in E. congruence.
Qed.

Lemma no_triple_starts_nl p r :
  starts_nl r = true → no_triple (p +:+ blank +:+ r) = false.
Proof.
  destruct r as [|c r]; [done |]. cbn [starts_nl]. intros ->%Ascii.eqb_eq.
  destruct (no_triple (p +:+ blank +:+ String nl r)) eqn:E; [| done].
  apply no_triple_app_r in E. discriminate E.
Qed.

Lemma starts_nl_app p r : p ≠ EmptyString → starts_nl (p +:+ r) = starts_nl p.
Proof. by destruct p. Qed.

Lemma tidy_join (l : list string) :
  l ≠ [] →
  no_triple (join blank l) = true →
  starts_nl (join blank l) = false →
  ends_nl (join blank l) = false →
  join blank l ≠ EmptyString →
  Forall tidy l.
Proof.
  induction l as [|p l IH]; [done |]. intros _ Hn Hs He Hne.
  destruct l as [|q l]; [by repeat constructor |].
  rewrite join_cons2 in *.
  set (s' := join blank (q :: l)) in *.
  assert (p ≠ EmptyString) as Hp by (intros ->; discriminate Hs).
  assert (s' ≠ EmptyString) as Hs'.
  { intros E. rewrite E in He. rewrite ends_nl_app in He by done. discriminate He. }
  constructor.
  - split; [done |]. split; [by rewrite starts_nl_app in Hs |].
    destruct (ends_nl p) eqn:E; [| done]. by rewrite no_triple_ends_nl in Hn.
  - apply IH; [done | | | | done].
    + by apply no_triple_app_r, no_triple_app_r in Hn.
    + destruct (starts_nl s') eqn:E; [| done]. by rewrite no_triple_starts_nl in Hn.
    + rewrite ends_nl_app in He by (by destruct s'). by rewrite ends_nl_app in He.
Qed.

Lemma lstrip_suffix s : ∃ a, s = a +:+ lstrip s.
Proof.
  induction s as [|c s [a IH]]; [by exists EmptyString |].
  cbn [lstrip]. destruct (is_space c); [| by exists EmptyString].
  exists (String c a).
  change (String c a +:+ lstrip s) with (String c (a +:+ lstrip s)).
  f_equal. exact IH.
Qed.

Lemma rstrip_prefix s : ∃ b, s = rstrip s +:+ b.
Proof.
  induction s as [|c s [b IH]]; [by exists EmptyString |].
  rewrite rstrip_cons. destruct (rstrip s) as [|c' r].
  - destruct (is_space c); [by exists (String c s) |].
    exists s. reflexivity.
  - exists b.
    change (String c (String c' r) +:+ b) with (String c (String c' r +:+ b)).
    f_equal. exact IH.
Qed.

Lemma no_triple_strip s : no_triple s = true → no_triple (strip s) = true.
Proof.
  intros H. unfold strip.
  destruct (lstrip_suffix s) as [a Ha]. rewrite Ha in H. apply no_triple_app_r in H.
  destruct (rstrip_prefix (lstrip s)) as [b Hb]. rewrite Hb in H.
  by apply no_triple_app_l in H.
Qed.

Lemma join_nonempty p (l : list string) : p ≠ EmptyString → join blank (p :: l) ≠ EmptyString.
Proof. destruct l; [done |]. rewrite join_cons2. by destruct p. Qed.

(** X8: the text that [convert_to_markdown] returns has no white space at
    either end and no three line breaks in a row; unless it is empty, each
    of its blocks is non-empty and has no line break at either end, and so
    no section that [chunk_content] makes of it has an empty body. *)
Theorem converted_sections_tidy (md : string → string) content :
  let markdown_text := convert_to_markdown md content in
  starts_space markdown_text = false ∧
  ends_space markdown_text = false ∧
  no_triple markdown_text = true ∧
  (markdown_text ≠ EmptyString →
   Forall tidy (split_blank markdown_text) ∧
   ∀ k body, chunk_content markdown_text !! k = Some body → body ≠ EmptyString).
Proof.
  cbn zeta. unfold convert_to_markdown.
  set (t := strip _).
  destruct (strip_trimmed (collapse_newlines (remove_references (md (text (basic_info content))))))
    as [Hs He].
  assert (no_triple t = true) as Hn
    by (apply no_triple_strip, (collapse_from_no_triple _ 0); lia).
  split; [done |]. split; [done |]. split; [done |].
  intros Hne.
  assert (Forall tidy (split_blank t)) as Htidy.
  { apply tidy_join.
    - apply split_blank_nonempty.
    - by rewrite (proj2 (split_blank_spec t)).
    - rewrite (proj2 (split_blank_spec t)). by apply starts_nl_space.
    - rewrite (proj2 (split_blank_spec t)). by apply ends_nl_space.
    - by rewrite (proj2 (split_blank_spec t)). }
  split; [done |].
  intros k body Hb.
  apply chunk_lookup_origin in Hb as (_ & blocks & pre & post & Hbne & _ & E & -> & _).
  rewrite E in Htidy. apply Forall_app in Htidy as [_ Htidy].
  apply Forall_app in Htidy as [Htidy _].
  destruct Htidy as [|p blocks [Hp _] _]; [done |]. by apply join_nonempty.
Qed.

End ConvertedSections.

Lemma converted_sections_tidy_witness :
  ∃ content,
    fetch_content toy_urlparse toy_wiki "https|en.wikipedia.org|/wiki/Rome" = Parsed (Some content) ∧
    Forall tidy (split_blank (convert_to_markdown (λ html, html) content)).
Proof.
  eexists. split; [reflexivity |].
  apply (converted_sections_tidy (λ html, html)). vm_compute. discriminate.
Defined.

(** * URLs *)
Section Urls.

Variable urlparse : string → reply ParseResult.

Lemma split_on_cons ch c s :
  split_on ch (String c s) =
  if Ascii.eqb c ch then EmptyString :: split_on ch s else cons_head c (split_on ch s).
Proof. reflexivity. Qed.

Lemma split_on_nonempty ch s : split_on ch s ≠ [].
Proof.
  destruct s as [|c s]; [done |]. rewrite split_on_cons.
  destruct (Ascii.eqb c ch); [done |]. by destruct (split_on ch s).
Qed.

Lemma split_on_plain ch p : has_char ch p = false → split_on ch p = [p].
Proof.
  induction p as [|c p IH]; [done |]. cbn [has_char]. intros [Hc Hp]%orb_false_elim.
  by rewrite split_on_cons, Hc, IH.
Qed.

Lemma split_on_app ch p r :
  has_char ch p = false → split_on ch (p +:+ String ch r) = p :: split_on ch r.
Proof.
  induction p as [|c p IH].
  - intros _. change (EmptyString +:+ String ch r) with (String ch r).
    by rewrite split_on_cons, Ascii.eqb_refl.
  - cbn [has_char]. intros [Hc Hp]%orb_false_elim.
    change (String c p +:+ String ch r) with (String c (p +:+ String ch r)).
    by rewrite split_on_cons, Hc, IH.
Qed.

Lemma split_on_no_sep ch s : Forall (λ p, has_char ch p = false) (split_on ch s).
Proof.
  induction s as [|c s IH]; [by repeat constructor |].
  rewrite split_on_cons. destruct (Ascii.eqb c ch) eqn:Hc; [by constructor |].
  destruct IH as [|p ps Hp Hps]; cbn; constructor; try done; cbn; by rewrite Hc.
Qed.

Lemma split_on_join ch s : join (String ch EmptyString) (split_on ch s) = s.
Proof.
  induction s as [|c s IH]; [done |]. rewrite split_on_cons.
  pose proof (split_on_nonempty ch s) as Hne.
  destruct (Ascii.eqb_spec c ch) as [-> | _].
  - destruct (split_on ch s) as [|q l]; [done |].
    change (join (String ch EmptyString) (EmptyString :: q :: l))
      with (String ch (join (String ch EmptyString) (q :: l))).
    by rewrite IH.
  - destruct (split_on ch s) as [|q [|q' l]]; [done | |]; cbn [cons_head].
    + cbn in IH. cbn. by rewrite IH.
    + change (join (String ch EmptyString) (String c q :: q' :: l))
        with (String c (join (String ch EmptyString) (q :: q' :: l))).
      by rewrite IH.
Qed.

Lemma prefix_app sub b : String.prefix sub (sub +:+ b) = true.
Proof.
  induction sub as [|c sub IH]; [by destruct b |].
  change (String.prefix (String c sub) (String c sub +:+ b))
    with (if ascii_dec c c then String.prefix sub (sub +:+ b) else false).
  destruct (ascii_dec c c); [exact IH | done].
Qed.

Lemma find_from_found sub a b i :
  (0 ≤ i)%Z → (0 ≤ find_from sub (a +:+ sub +:+ b) i)%Z.
Proof.
  revert i. induction a as [|c a IH]; intros i Hi.
  - change (EmptyString +:+ sub +:+ b) with (sub +:+ b).
    destruct (sub +:+ b) eqn:E; cbn [find_from]; rewrite <- ?E, prefix_app; done.
  - change (String c a +:+ sub +:+ b) with (String c (a +:+ sub +:+ b)).
    cbn [find_from]. destruct (String.prefix sub _); [done |]. apply IH. lia.
Qed.

Lemma contains_app sub a b : contains (a +:+ sub +:+ b) sub = true.
Proof.
  unfold contains, find. apply negb_true_iff, Z.eqb_neq.
  pose proof (find_from_found sub a b 0). lia.
Qed.

Lemma wiki_parts_contain (p0 p2 : string) (rest : list string) :
  contains (join "/" (p0 :: "wiki" :: p2 :: rest)) "/wiki/" = true.
Proof.
  change (join "/" (p0 :: "wiki" :: p2 :: rest))
    with (p0 +:+ "/wiki/" +:+ join "/" (p2 :: rest)).
  apply contains_app.
Qed.

(** X9: when a title is extracted from a URL, the host names
    [wikipedia.org], the path contains [/wiki/] and the title has no slash;
    so the URL is valid for [validate_url] exactly when its scheme is
    [http] or [https], which the extraction does not look at. *)
Theorem extracted_title_valid url page_title :
  extract_page_title_from_url urlparse url = Parsed page_title →
  ∃ parsed_url,
    urlparse url = Parsed parsed_url ∧
    contains (netloc parsed_url) "wikipedia.org" = true ∧
    contains (path parsed_url) "/wiki/" = true ∧
    has_char "/" page_title = false ∧
    validate_url urlparse url
    = (String.eqb (scheme parsed_url) "http" || String.eqb (scheme parsed_url) "https").
Proof.
  unfold extract_page_title_from_url, validate_url.
  destruct (urlparse url) as [|parsed_url]; [done |].
  destruct (contains (netloc parsed_url) "wikipedia.org") eqn:Hn; [| done]. cbn [negb].
  pose proof (split_on_join "/" (path parsed_url)) as Hj.
  pose proof (split_on_no_sep "/" (path parsed_url)) as Hs.
  destruct (split_on "/" (path parsed_url)) as [|p0 [|p1 [|p2 rest]]]; try done.
  cbn [length nth]. change (3 <? S (S (S (length rest))))%nat with false.
  destruct (String.eqb_spec p1 "wiki") as [-> | _]; [| done].
  cbn [negb orb]. intros [= <-].
  exists parsed_url. split; [done |]. split; [done |].
  assert (contains (path parsed_url) "/wiki/" = true) as Hc
    by (rewrite <- Hj; apply wiki_parts_contain).
  split; [done |]. split.
  - by do 2 apply Forall_cons in Hs as [_ Hs]; apply Forall_cons in Hs as [Hs _].
  - by rewrite Hc, !andb_true_r.
Qed.

Lemma split_on_wiki X :
  split_on "/" ("/wiki/" +:+ X) = EmptyString :: "wiki" :: split_on "/" X.
Proof.
  change ("/wiki/" +:+ X) with (String "/" ("wiki" +:+ String "/" X)).
  rewrite split_on_cons, Ascii.eqb_refl.
  by rewrite (split_on_app "/" "wiki" X eq_refl).
Qed.

(** X10: for a path [/wiki/T] or [/wiki/T/...], where [T] has no slash,
    the title extracted is [T]: what follows a further slash is dropped,
    and an empty [T] is returned as the empty title, without an error. *)
Theorem title_is_third_segment url parsed_url t :
  urlparse url = Parsed parsed_url →
  contains (netloc parsed_url) "wikipedia.org" = true →
  has_char "/" t = false →
  (path parsed_url = "/wiki/" +:+ t ∨
   ∃ r, path parsed_url = "/wiki/" +:+ t +:+ String "/" r) →
  extract_page_title_from_url urlparse url = Parsed t.
Proof.
  intros Hu Hn Ht Hp. unfold extract_page_title_from_url. rewrite Hu, Hn. cbn [negb].
  destruct Hp as [-> | [r ->]]; rewrite split_on_wiki.
  - by rewrite split_on_plain.
  - rewrite split_on_app by done. cbn [length nth].
    pose proof (split_on_nonempty "/" r). by destruct (split_on "/" r).
Qed.

(** X11: a URL can be valid and still have no title.  When the path is
    [/a/wiki/...] with a first segment [a] other than [wiki], a scheme
    [http] or [https] and a host naming [wikipedia.org], [validate_url]
    accepts the URL, the extraction raises, and so do [fetch_content] and
    [get_and_process_content], whatever the page source is. *)
Theorem valid_url_without_title wiki_page md url parsed_url a r :
  urlparse url = Parsed parsed_url →
  String.eqb (scheme parsed_url) "http" || String.eqb (scheme parsed_url) "https" = true →
  contains (netloc parsed_url) "wikipedia.org" = true →
  path parsed_url = String "/" (a +:+ "/wiki/" +:+ r) →
  has_char "/" a = false →
  a ≠ "wiki" →
  validate_url urlparse url = true ∧
  extract_page_title_from_url urlparse url = Raised ∧
  fetch_content urlparse wiki_page url = Raised ∧
  get_and_process_content urlparse wiki_page md url = Raised.
Proof.
  intros Hu Hs Hn Hp Ha Hw.
  assert (validate_url urlparse url = true) as Hv.
  { unfold validate_url. rewrite Hu, Hs, Hn, Hp.
    change (String "/" (a +:+ "/wiki/" +:+ r)) with (String "/" a +:+ "/wiki/" +:+ r).
    by rewrite contains_app. }
  assert (extract_page_title_from_url urlparse url = Raised) as He.
  { unfold extract_page_title_from_url. rewrite Hu, Hn, Hp. cbn [negb].
    change (String "/" (a +:+ "/wiki/" +:+ r))
      with (String "/" (a +:+ String "/" ("wiki/" +:+ r))).
    rewrite split_on_cons, Ascii.eqb_refl, split_on_app by done.
    cbn [nth]. destruct (String.eqb_spec a "wiki") as [-> | _]; [done |].
    cbn [negb]. by rewrite orb_true_r. }
  assert (fetch_content urlparse wiki_page url = Raised) as Hf
    by (unfold fetch_content; by rewrite He).
  repeat split; try done.
  unfold get_and_process_content. by rewrite Hv, Hf.
Qed.

(** X12: [get_and_process_content] returns [None], and asks for no page,
    when the URL is not valid; and when it returns sections, the URL is
    valid, its title was extracted, the page of that title exists, and the
    sections are those of the page text after conversion, reference marks
    removed, line breaks collapsed and the ends trimmed. *)
Theorem processed_content_origin wiki_page md url :
  (validate_url urlparse url = false →
   get_and_process_content urlparse wiki_page md url = Parsed None) ∧
  (∀ sections,
     get_and_process_content urlparse wiki_page md url = Parsed (Some sections) →
     validate_url urlparse url = true ∧
     ∃ page_title page,
       extract_page_title_from_url urlparse url = Parsed page_title ∧
       wiki_page page_title = Parsed page ∧
       page_exists page = true ∧
       sections = chunk_content
         (strip (collapse_newlines (remove_references (md (page_text page)))))).
Proof.
  unfold get_and_process_content. split; [by intros -> |].
  intros sections. destruct (validate_url urlparse url); [| done].
  unfold fetch_content.
  destruct (extract_page_title_from_url urlparse url) as [|t]; [done |].
  destruct (wiki_page t) as [|page] eqn:Hw; [done |].
  destruct (page_exists page) eqn:Hx; cbn [negb]; [| done].
  intros [= <-]. split; [done |]. by exists t, page.
Qed.

End Urls.

Lemma extracted_title_valid_witness :
  validate_url toy_urlparse "https|en.wikipedia.org|/wiki/Rome" = true.
Proof.
  destruct (extracted_title_valid toy_urlparse "https|en.wikipedia.org|/wiki/Rome" "Rome")
    as (parsed_url & Hu & _ & _ & _ & ->); [reflexivity |].
  injection Hu as <-. reflexivity.
Defined.

Lemma title_is_third_segment_witness :
  extract_page_title_from_url toy_urlparse "https|en.wikipedia.org|/wiki/AC/DC" = Parsed "AC".
Proof.
  eapply (title_is_third_segment toy_urlparse); [reflexivity | reflexivity | reflexivity |].
  right. exists "DC". reflexivity.
Defined.

Lemma valid_url_without_title_witness :
  validate_url toy_urlparse "https|en.wikipedia.org|/m/wiki/Rome" = true ∧
  get_and_process_content toy_urlparse toy_wiki (λ html, html)
    "https|en.wikipedia.org|/m/wiki/Rome" = Raised.
Proof.
  destruct (valid_url_without_title toy_urlparse toy_wiki (λ html, html)
              "https|en.wikipedia.org|/m/wiki/Rome"
              {| scheme := "https"; netloc := "en.wikipedia.org"; path := "/m/wiki/Rome" |}
              "m" "Rome") as (Hv & _ & _ & Hg); try reflexivity; [discriminate |].
  by split.
Defined.

Lemma processed_content_origin_witness :
  get_and_process_content toy_urlparse toy_wiki (λ html, html) "ftp|en.wikipedia.org|/wiki/Rome"
  = Parsed None.
Proof.
  apply (proj1 (processed_content_origin toy_urlparse toy_wiki (λ html, html)
                  "ftp|en.wikipedia.org|/wiki/Rome")).
  reflexivity.
Defined.

(** * Further properties of the sample aggregator *)
Section AggregatorMore.

Lemma prefix_cons c sub c' s :
  String.prefix (String c sub) (String c' s)
  = if ascii_dec c c' then String.prefix sub s else false.
Proof. reflexivity. Qed.

Lemma prefix_inv sub s : String.prefix sub s = true → ∃ b, s = sub +:+ b.
Proof.
  revert s. induction sub as [|c sub IH]; intros s H; [by exists s |].
  destruct s as [|c' s]; [done |]. rewrite prefix_cons in H.
  destruct (ascii_dec c c') as [<- |]; [| done].
  destruct (IH s H) as [b ->]. by exists b.
Qed.

Lemma find_from_first sub s i :
  (0 ≤ i)%Z → find_from sub s i ≠ (-1)%Z →
  ∃ a b, s = a +:+ sub +:+ b ∧
    find_from sub s i = (i + Z.of_nat (String.length a))%Z ∧
    ∀ a' b', s = a' +:+ sub +:+ b' → (String.length a ≤ String.length a')%nat.
Proof.
  revert i. induction s as [|c s IH]; intros i Hi Hf.
  - cbn [find_from] in *. destruct (String.prefix sub EmptyString) eqn:Hp; [| done].
    destruct (prefix_inv _ _ Hp) as [b Hb]. exists EmptyString, b.
    split; [done |]. split; [cbn; lia |]. intros; cbn; lia.
  - cbn [find_from] in *. destruct (String.prefix sub (String c s)) eqn:Hp.
    + destruct (prefix_inv _ _ Hp) as [b Hb]. exists EmptyString, b.
      split; [done |]. split; [cbn; lia |]. intros; cbn; lia.
    + destruct (IH (i + 1)%Z) as (a & b & -> & Hr & Hmin); [lia | done |].
      exists (String c a), b. split; [done |]. split; [rewrite Hr; cbn; lia |].
      intros a' b' E. destruct a' as [|c' a'].
      * change (EmptyString +:+ sub +:+ b') with (sub +:+ b') in E.
        rewrite E, prefix_app in Hp. discriminate Hp.
      * injection E as _ E. apply Hmin in E. cbn. lia.
Qed.

Lemma find_first s sub : find s sub ≠ (-1)%Z → first_at s sub (find s sub).
Proof.
  intros Hf. destruct (find_from_first sub s 0) as (a & b & E & Hr & Hmin); [lia | done |].
  unfold find. rewrite Hr. split.
  - exists a, b. split; [done | lia].
  - intros j (a' & b' & E' & ->). apply Hmin in E'. lia.
Qed.

Lemma find_absent s sub i : find s sub = (-1)%Z → ¬ occurs_at s sub i.
Proof.
  intros Hf (a & b & -> & _). unfold find in Hf.
  pose proof (find_from_found sub a b 0). lia.
Qed.

Lemma resolved_occurs content bias :
  resolved content bias = true ↔ ∃ i, occurs_at content (biased_phrase bias) i.
Proof.
  unfold resolved. rewrite negb_true_iff, Z.eqb_neq. split.
  - intros H. exists (find content (biased_phrase bias)). by apply find_first.
  - intros [i Hi] H. by apply (find_absent _ _ i) in H.
Qed.

(** X13: a finding is returned exactly when its phrase stands in the
    content, letter for letter, and the offset of every bucket is the first
    index at which the phrase of the bucket stands there. *)
Theorem offsets_are_first_occurrences content self runs samples :
  answers self content (seq 0 runs) samples →
  ∃ insts hm,
    analyze_content self content runs = Parsed (insts, hm) ∧
    (∀ bias, bias ∈ all_biases samples →
       bias ∈ bias_instance <$> insts ↔ ∃ i, occurs_at content (biased_phrase bias) i) ∧
    (∀ k b, hm !! k = Some b → first_at content (bias_phrase b) (index b)).
Proof.
  intros Ha.
  set (st := fold_left (record_bias content) (all_biases samples) run_init).
  assert (run_inv content st) as Hinv by apply run_inv_fold, run_inv_init.
  exists (found st), (bias_phrase_heatmap st).
  split; [apply analyze_content_parsed; by exists samples |].
  pose proof (found_fold content (all_biases samples) run_init) as Hfound.
  fold st in Hfound. cbn [found run_init fmap list_fmap app] in Hfound.
  split.
  - intros bias Hb. rewrite Hfound, <- resolved_occurs.
    rewrite list_elem_of_In, filter_In, <- list_elem_of_In. tauto.
  - intros k b Hkb.
    destruct (proj2 Hinv _ _ Hkb) as (_ & _ & Hne & _ & Hi & Hid).
    rewrite Hi. apply find_first.
    destruct (bias_instances b) as [|id ids]; [done |].
    destruct (Hid id) as (f & Hf & _ & Hfi); [left |].
    assert (bias_instance f ∈ bias_instance <$> found st) as Hin
      by (apply list_elem_of_fmap; exists f; split; [done | by eapply list_elem_of_lookup_2]).
    rewrite Hfound, list_elem_of_In, filter_In in Hin. destruct Hin as [_ Hr].
    unfold resolved in Hr. apply negb_true_iff, Z.eqb_neq in Hr. congruence.
Qed.

Lemma offsets_are_first_occurrences_witness :
  ∃ insts hm,
    analyze_content self_the doc_the 1 = Parsed (insts, hm) ∧
    ∀ k b, hm !! k = Some b → first_at doc_the (bias_phrase b) (index b).
Proof.
  destruct (offsets_are_first_occurrences doc_the self_the 1
              [reporting [quoting "The"; quoting "the"]])
    as (insts & hm & E & _ & H).
  - repeat constructor.
  - by exists insts, hm.
Defined.

Lemma with_key_snoc k insts f :
  with_key k (insts ++ [f])
  = (with_key k insts
     ++ if String.eqb (phrase_key (bias_instance f)) k then [f] else [])%list.
Proof. unfold with_key. rewrite List.filter_app. cbn. by destruct (String.eqb _ k). Qed.

Lemma latest_inv content biases :
  let st := fold_left (record_bias content) biases run_init in
  ∀ k,
    match last (with_key k (found st)) with
    | None => bias_phrase_heatmap st !! k = None
    | Some f =>
        ∃ b, bias_phrase_heatmap st !! k = Some b ∧
             index b = find content (biased_phrase (bias_instance f)) ∧
             last (bias_instances b) = Some (bias_id f)
    end.
Proof.
  induction biases as [|x biases IH] using rev_ind; cbn zeta; [done |].
  rewrite fold_record_snoc.
  set (st := fold_left (record_bias content) biases run_init) in *. cbn zeta in IH.
  destruct (resolved content x) eqn:Hr; [| by rewrite record_bias_unresolved].
  rewrite record_bias_resolved by done. cbn [found bias_phrase_heatmap].
  intros k. rewrite with_key_snoc. cbn [bias_instance].
  destruct (update_heatmap_insert (bias_phrase_heatmap st)
              (find content (biased_phrase x)) x (bias_index st))
    as (b' & -> & Hb').
  destruct (String.eqb_spec (phrase_key x) k) as [<- | Hne].
  - rewrite last_snoc. exists b'. split; [apply lookup_insert_eq |].
    destruct Hb' as [[-> _] | (b0 & _ & Hi & ->)]; cbn; [done |].
    split; [done | apply last_snoc].
  - rewrite app_nil_r, lookup_insert_ne by done. apply IH.
Qed.

(** X14: a bucket is the bucket of the latest finding of its key: a key
    has a bucket exactly when some finding returned has that key, and then
    the offset of the bucket is the offset of the last such finding and the
    last id the bucket lists is the id of that finding. *)
Theorem latest_finding_decides content self runs insts hm :
  analyze_content self content runs = Parsed (insts, hm) →
  ∀ k,
    match last (with_key k insts) with
    | None => hm !! k = None
    | Some f =>
        ∃ b, hm !! k = Some b ∧
             index b = find content (biased_phrase (bias_instance f)) ∧
             last (bias_instances b) = Some (bias_id f)
    end.
Proof.
  intros H.
  apply (analyze_content_parsed content self runs insts hm) in H
    as (samples & _ & -> & ->).
  apply latest_inv.
Qed.

Lemma latest_finding_decides_witness :
  ∃ b, ({[ "the" := new_bucket 4 (quoting "the") 1 ]} : gmap string BiasPhraseMetadata)
         !! "the" = Some b ∧
       index b = find doc_the "the" ∧ last (bias_instances b) = Some 1.
Proof.
  exact (latest_finding_decides doc_the self_the 1 _ _ self_the_run "the").
Defined.

Lemma total_insert_None k v (m : gmap string BiasPhraseMetadata) :
  m !! k = None → total_count (<[k:=v]> m) = occurrence_count v + total_count m.
Proof. intros H. unfold total_count. by rewrite map_to_list_insert. Qed.

Lemma total_insert_Some k v v0 (m : gmap string BiasPhraseMetadata) :
  m !! k = Some v0 →
  total_count (<[k:=v]> m) + occurrence_count v0 = occurrence_count v + total_count m.
Proof.
  intros H. unfold total_count.
  rewrite <- insert_delete_eq, map_to_list_insert by apply lookup_delete_eq.
  rewrite <- (map_to_list_delete m k v0 H). cbn. lia.
Qed.

Lemma total_step content st x :
  resolved content x = true →
  (total_count (bias_phrase_heatmap (record_bias content st x))
   ≤ total_count (bias_phrase_heatmap st) + 1)%nat ∧
  ((¬ ∃ b0, bias_phrase_heatmap st !! phrase_key x = Some b0
            ∧ index b0 ≠ find content (biased_phrase x)) →
   total_count (bias_phrase_heatmap (record_bias content st x))
   = total_count (bias_phrase_heatmap st) + 1).
Proof.
  intros Hr. rewrite record_bias_resolved by done. cbn [bias_phrase_heatmap].
  destruct (update_heatmap_insert (bias_phrase_heatmap st)
              (find content (biased_phrase x)) x (bias_index st))
    as (b' & -> & [[-> [Hnone | (b0 & Hb0 & Hne)]] | (b0 & Hb0 & Hi & ->)]).
  - rewrite total_insert_None by done. cbn. split; [lia |]. intros _. lia.
  - pose proof (total_insert_Some (phrase_key x)
                  (new_bucket (find content (biased_phrase x)) x (bias_index st))
                  b0 _ Hb0) as Ht.
    cbn in Ht. split; [lia |]. intros Hno. destruct Hno. by exists b0.
  - pose proof (total_insert_Some (phrase_key x) (bump b0 (bias_index st)) b0 _ Hb0) as Ht.
    cbn in Ht. split; [lia |]. intros _. lia.
Qed.

Lemma agree_no_replace content st x :
  run_inv content st →
  offsets_agree content (found st ++ [ {| bias_id := bias_index st; bias_instance := x |} ]) →
  ¬ ∃ b0, bias_phrase_heatmap st !! phrase_key x = Some b0
          ∧ index b0 ≠ find content (biased_phrase x).
Proof.
  intros Hinv Hagree (b0 & Hb0 & Hne).
  destruct (proj2 Hinv _ _ Hb0) as (_ & _ & He & _ & _ & Hid).
  destruct (bias_instances b0) as [|id0 ids] eqn:Eids; [done |].
  destruct (Hid id0) as (g & Hg & Hgk & Hgi); [left |].
  apply Hne. rewrite <- Hgi.
  apply (Hagree g {| bias_id := bias_index st; bias_instance := x |}); [| | done].
  - apply elem_of_app. left. by eapply list_elem_of_lookup_2.
  - apply elem_of_app. right. by left.
Qed.

Lemma total_inv content biases :
  let st := fold_left (record_bias content) biases run_init in
  (total_count (bias_phrase_heatmap st) ≤ length (found st))%nat ∧
  (offsets_agree content (found st) →
   total_count (bias_phrase_heatmap st) = length (found st)).
Proof.
  induction biases as [|x biases IH] using rev_ind; cbn zeta.
  - split; [| intros _]; unfold total_count; cbn; by rewrite map_to_list_empty.
  - rewrite fold_record_snoc.
    set (st := fold_left (record_bias content) biases run_init) in *. cbn zeta in IH.
    assert (run_inv content st) as Hinv by apply run_inv_fold, run_inv_init.
    destruct (resolved content x) eqn:Hr; [| by rewrite record_bias_unresolved].
    destruct (total_step content st x Hr) as [Hle Heq].
    destruct IH as [IHle IHeq].
    assert (found (record_bias content st x)
            = (found st ++ [ {| bias_id := bias_index st; bias_instance := x |} ])%list) as Hf
      by (by rewrite record_bias_resolved).
    rewrite Hf, length_app. cbn [length]. split; [lia |].
    intros Hagree. rewrite Heq by by apply agree_no_replace.
    rewrite IHeq; [done |].
    intros f g Hf' Hg'. apply Hagree; apply elem_of_app; by left.
Qed.

(** X15: the counts of all buckets add up to at most the number of
    findings returned, and to exactly that number when all the findings of
    equal key resolve to equal offsets. *)
Theorem total_count_bounded content self runs insts hm :
  analyze_content self content runs = Parsed (insts, hm) →
  (total_count hm ≤ length insts)%nat ∧
  (offsets_agree content insts → total_count hm = length insts).
Proof.
  intros H.
  apply (analyze_content_parsed content self runs insts hm) in H
    as (samples & _ & -> & ->).
  apply total_inv.
Qed.

Lemma total_count_bounded_witness :
  (total_count {[ "the" := new_bucket 4 (quoting "the") 1 ]} ≤ 2)%nat.
Proof.
  exact (proj1 (total_count_bounded doc_the self_the 1 _ _ self_the_run)).
Defined.

Lemma fold_record_filter content biases st :
  fold_left (record_bias content) biases st
  = fold_left (record_bias content) (List.filter (resolved content) biases) st.
Proof.
  revert st. induction biases as [|x biases IH]; intros st; [done |].
  cbn [fold_left List.filter]. destruct (resolved content x) eqn:Hr.
  - cbn [fold_left]. apply IH.
  - rewrite record_bias_unresolved by done. apply IH.
Qed.

(** X16: the result of a run depends only on the findings that resolve,
    taken in order over all samples: two runs, of any two clients and any
    two numbers of samples, whose resolved findings are the same sequence
    return the same findings and the same heatmap. *)
Theorem result_of_resolved_findings content self1 runs1 samples1 self2 runs2 samples2 :
  answers self1 content (seq 0 runs1) samples1 →
  answers self2 content (seq 0 runs2) samples2 →
  List.filter (resolved content) (all_biases samples1)
  = List.filter (resolved content) (all_biases samples2) →
  analyze_content self1 content runs1 = analyze_content self2 content runs2.
Proof.
  intros H1 H2 E.
  assert (∀ self runs samples, answers self content (seq 0 runs) samples →
            analyze_content self content runs
            = Parsed (found (fold_left (record_bias content)
                               (List.filter (resolved content) (all_biases samples)) run_init),
                      bias_phrase_heatmap (fold_left (record_bias content)
                               (List.filter (resolved content) (all_biases samples)) run_init)))
    as Hrun.
  { intros self runs samples Ha. apply analyze_content_parsed.
    exists samples. by rewrite <- fold_record_filter. }
  by rewrite (Hrun _ _ _ H1), (Hrun _ _ _ H2), E.
Qed.

Lemma result_of_resolved_findings_witness :
  analyze_content self_flaky doc_bad 1
  = analyze_content (scripted [Some [quoting "good"]; Some [quoting "bad"; quoting "worse"]])
      doc_bad 2.
Proof.
  apply (result_of_resolved_findings doc_bad _ 1 [reporting [quoting "bad"]]
           _ 2 [reporting [quoting "good"]; reporting [quoting "bad"; quoting "worse"]]).
  - repeat constructor.
  - repeat constructor.
  - reflexivity.
Defined.

(** X17: an empty phrase is found in every content, the empty one too, at
    offset 0: a sample that reports it alone gives one finding and one
    bucket, under the empty key. *)
Theorem empty_phrase_resolves content self a bias :
  Semantic.openai_client self 0 (request self content) = Parsed a →
  detected_biases a = [bias] →
  biased_phrase bias = EmptyString →
  analyze_content self content 1
  = Parsed ([ {| bias_id := 0; bias_instance := bias |} ],
            {[ EmptyString := new_bucket 0 bias 0 ]}).
Proof.
  intros Ha Hb Hp. apply analyze_content_parsed. exists [a].
  split; [by repeat constructor |].
  unfold all_biases. cbn [fmap list_fmap concat]. rewrite Hb. cbn [app fold_left].
  assert (find content (biased_phrase bias) = 0%Z) as Hf
    by (rewrite Hp; unfold find; by destruct content).
  assert (resolved content bias = true) as Hr by (unfold resolved; by rewrite Hf).
  rewrite record_bias_resolved by done. cbn.
  unfold update_heatmap, phrase_key. rewrite Hf, Hp. cbn.
  rewrite lookup_empty. done.
Qed.

Lemma empty_phrase_resolves_witness :
  analyze_content (scripted [Some [quoting EmptyString]]) EmptyString 1
  = Parsed ([ {| bias_id := 0; bias_instance := quoting EmptyString |} ],
            {[ EmptyString := new_bucket 0 (quoting EmptyString) 0 ]}).
Proof.
  by apply (empty_phrase_resolves EmptyString _ (reporting [quoting EmptyString])).
Defined.

End AggregatorMore.

(** * The chat history of the investigator *)
Section ChatHistory.

Variable client : list message → reply (string * ExpertsNeeded).

Lemma experts_call_history self topic content :
  let result := get_experts_needed client self topic content in
  Main.system_prompt result.1 = Main.system_prompt self ∧
  Main.chat_history result.1
  = (Main.chat_history self
     ++ experts_prompt topic content
        :: match client [ (system, Main.system_prompt self);
                          (user, experts_prompt topic content) ] with
           | Parsed (message_content, _) => [message_content]
           | Raised => []
           end)%list ∧
  answered result.2
  = answered (client [ (system, Main.system_prompt self);
                       (user, experts_prompt topic content) ]).
Proof.
  cbn zeta. unfold get_experts_needed. cbn [remember Main.system_prompt].
  destruct (client _) as [|[c e]]; cbn; [done |].
  by rewrite <- app_assoc.
Qed.

(** X18: the chat history only grows.  Each call of [get_experts_needed]
    adds its prompt, also when the client raises, and adds the reply only
    when the client answers; so after any sequence of calls the history
    starts with the history before, and is longer by the number of calls
    plus the number of calls answered.  The request of
    [create_final_content] made afterwards carries all of it. *)
Theorem chat_history_grows repr self asks pa content :
  let result := ask_all client self asks in
  Main.system_prompt result.1 = Main.system_prompt self ∧
  (∃ added, Main.chat_history result.1 = (Main.chat_history self ++ added)%list) ∧
  length result.2 = length asks ∧
  length (Main.chat_history result.1)
  = length (Main.chat_history self) + length asks
    + length (List.filter answered result.2) ∧
  length (Main.final_messages repr result.1 pa content)
  = length (Main.final_messages repr self pa content) + length asks
    + length (List.filter answered result.2).
Proof.
  cbn zeta.
  enough (Main.system_prompt (ask_all client self asks).1 = Main.system_prompt self ∧
          (∃ added, Main.chat_history (ask_all client self asks).1
                    = (Main.chat_history self ++ added)%list) ∧
          length (ask_all client self asks).2 = length asks ∧
          length (Main.chat_history (ask_all client self asks).1)
          = length (Main.chat_history self) + length asks
            + length (List.filter answered (ask_all client self asks).2)) as (H1 & H2 & H3 & H4).
  { repeat split; try done. unfold Main.final_messages.
    rewrite !length_app, !length_fmap, H4. cbn. lia. }
  revert self. induction asks as [|[topic doc] asks IH]; intros self.
  - cbn. repeat split; try done; [by exists []; rewrite app_nil_r | lia].
  - cbn [ask_all].
    destruct (experts_call_history self topic doc) as (Hs & Hh & Ha). cbn zeta in *.
    destruct (get_experts_needed client self topic doc) as [self1 r].
    cbn [fst snd] in *.
    destruct (IH self1) as (IHs & [added IHh] & IHl & IHn).
    destruct (ask_all client self1 asks) as [self2 rs]. cbn [fst snd] in *.
    split; [congruence |]. split.
    + eexists. rewrite IHh, Hh, <- app_assoc. reflexivity.
    + split; [cbn; lia |].
      rewrite IHn, Hh, length_app. cbn [List.filter length]. rewrite Ha.
      destruct (client _) as [|[c e]]; cbn; lia.
Qed.

End ChatHistory.

Lemma chat_history_grows_witness :
  length (Main.chat_history
            (ask_all toy_experts_client toy_investigator [("x", "doc"); ("y", "doc")]).1)
  = 3.
Proof.
  destruct (chat_history_grows toy_experts_client (λ _, EmptyString) toy_investigator
              [("x", "doc"); ("y", "doc")]
              {| Main.stakeholders := []; Main.bias_instance := [];
                 Main.executive_summary := "" |} "doc")
    as (_ & _ & _ & H & _).
  rewrite H. reflexivity.
Defined.
